(** * A shallow embedding of wiki-quiz-master (src/wikiService.ts, src/App.tsx)

    JavaScript strings are modelled over ASCII characters, where a UTF-16
    code unit and a character coincide: a string is a [list ascii], its
    [length] is the JS [length], and [toLowerCase], [trim] and the regex
    class [\s] are their ASCII restrictions.

    Randomness is an oracle: the [k]-th draw [Math.floor(Math.random() * n)]
    is [rnd k mod n], and the [k]-th [sort(() => Math.random() - 0.5)] is
    [shuffle k], which returns some permutation of its argument.  The
    theorems below quantify over every oracle.  The [while] loop of the
    distractor sampling is run with a fuel bound; running out of fuel is
    the model of a loop that does not stop. *)

From Stdlib Require Import Ascii String List Bool Arith Lia ZArith Permutation.
Import ListNotations.
Open Scope list_scope.

(** ** Strings *)

Definition str := list ascii.

Definition lit (s : string) : str := list_ascii_of_string s.

Fixpoint str_eqb (a b : str) : bool :=
  match a, b with
  | [], [] => true
  | x :: a', y :: b' => Ascii.eqb x y && str_eqb a' b'
  | _, _ => false
  end.

(** ASCII part of the ECMAScript WhiteSpace and LineTerminator sets. *)
Definition is_ws (c : ascii) : bool :=
  let n := nat_of_ascii c in ((9 <=? n) && (n <=? 13)) || (n =? 32).

Definition is_space (c : ascii) : bool := Ascii.eqb c " "%char.
Definition is_newline (c : ascii) : bool := nat_of_ascii c =? 10.
Definition is_slash (c : ascii) : bool := Ascii.eqb c "/"%char.

(** the regex class [[.!?]] *)
Definition is_sentence_end (c : ascii) : bool :=
  Ascii.eqb c "."%char || Ascii.eqb c "!"%char || Ascii.eqb c "?"%char.

(** the regex class [[,.;]] *)
Definition is_punct (c : ascii) : bool :=
  Ascii.eqb c ","%char || Ascii.eqb c "."%char || Ascii.eqb c ";"%char.

Definition is_upper (c : ascii) : bool :=
  let n := nat_of_ascii c in (65 <=? n) && (n <=? 90).

Definition to_lower_char (c : ascii) : ascii :=
  if is_upper c then ascii_of_nat (nat_of_ascii c + 32) else c.

(** [s.toLowerCase()] *)
Definition toLowerCase (s : str) : str := map to_lower_char s.

Fixpoint drop_ws (s : str) : str :=
  match s with
  | c :: s' => if is_ws c then drop_ws s' else s
  | [] => []
  end.

(** [s.trim()] *)
Definition trim (s : str) : str := rev (drop_ws (rev (drop_ws s))).

(** [s.split(sep)] for a one-character separator (or a one-character
    regex class) described by [p]. *)
Fixpoint split_on (p : ascii -> bool) (s : str) : list str :=
  match s with
  | [] => [[]]
  | c :: s' =>
      let parts := split_on p s' in
      if p c then [] :: parts
      else match parts with
           | [] => [[c]]
           | w :: ws => (c :: w) :: ws
           end
  end.

(** [s.split(/\s+/)]: every maximal run of whitespace separates. *)
Fixpoint split_ws (s : str) : list str :=
  match s with
  | [] => [[]]
  | c :: s' =>
      let parts := split_ws s' in
      if is_ws c then
        match s' with
        | d :: _ => if is_ws d then parts else [] :: parts
        | [] => [] :: parts
        end
      else match parts with
           | [] => [[c]]
           | w :: ws => (c :: w) :: ws
           end
  end.

Fixpoint is_prefix (p s : str) : bool :=
  match p, s with
  | [], _ => true
  | x :: p', y :: s' => Ascii.eqb x y && is_prefix p' s'
  | _ :: _, [] => false
  end.

(** [s.includes(pat)] *)
Fixpoint includes (s pat : str) : bool :=
  is_prefix pat s ||
  match s with
  | [] => false
  | _ :: s' => includes s' pat
  end.

(** [/^[A-Z]/.test(w)] *)
Definition starts_upper (w : str) : bool :=
  match w with
  | c :: _ => is_upper c
  | [] => false
  end.

(** [w.replace(/[,.;]$/, '')]: one trailing character of the class. *)
Definition strip_punct (w : str) : str :=
  match rev w with
  | c :: r => if is_punct c then rev r else w
  | [] => w
  end.

(** [s.replace(pat, rep)] with a string pattern: the first occurrence. *)
Fixpoint replace_first (pat rep s : str) : str :=
  if is_prefix pat s then rep ++ skipn (length pat) s
  else match s with
       | [] => []
       | c :: s' => c :: replace_first pat rep s'
       end.

Fixpoint nat_digits (fuel n : nat) (acc : str) : str :=
  match fuel with
  | 0 => acc
  | S f =>
      let acc' := ascii_of_nat (48 + n mod 10) :: acc in
      if n <? 10 then acc' else nat_digits f (n / 10) acc'
  end.

(** [String(n)] for a natural number *)
Definition string_of_nat (n : nat) : str := nat_digits (S n) n [].

(** ** The quiz generator: [generateQuizFromExtract] *)

Record WikiQuizQuestion := mkQuestion {
  question : str;
  options : list str;
  answer : str
}.

Definition blank : str := lit "_______".

(** [while (options.length < 4) options.push("Option " + options.length)] *)
Fixpoint pad_aux (n : nat) (opts : list str) : list str :=
  match n with
  | 0 => opts
  | S n' => pad_aux n' (opts ++ [lit "Option " ++ string_of_nat (length opts)])
  end.

Definition pad_options (opts : list str) : list str :=
  pad_aux (4 - length opts) opts.

Definition lower_eqb (a b : str) : bool :=
  str_eqb (toLowerCase a) (toLowerCase b).

(** Outcome of one iteration of the sentence loop. *)
Inductive step_result :=
| Skip
| OutOfFuel
| Made (k : nat) (q : WikiQuizQuestion).

Section Generator.

Variable rnd : nat -> nat.
Variable shuffle : nat -> list str -> list str.
Variable fuel : nat.

(** the distractor loop:
    [while (options.length < 4 && allWords.length > 0) { ... }] *)
Fixpoint fill_options (n k : nat) (allWords opts : list str)
  : option (nat * list str) :=
  match n with
  | 0 => None
  | S n' =>
      if (length opts <? 4) && (0 <? length allWords) then
        let fake := strip_punct (nth (rnd k mod length allWords) allWords []) in
        let opts' := if existsb (fun o => lower_eqb o fake) opts
                     then opts else opts ++ [fake] in
        fill_options n' (S k) allWords opts'
      else Some (k, opts)
  end.

Definition title_word (title : str) : str :=
  hd [] (split_on is_space (toLowerCase title)).

Definition preferred_words (title trimmed : str) : list str :=
  filter (fun w => (5 <? length w)
                   && negb (includes (toLowerCase w) (title_word title))
                   && starts_upper w)
         (split_on is_space trimmed).

Definition fallback_words (trimmed : str) : list str :=
  filter (fun w => 6 <? length w) (split_on is_space trimmed).

Definition target_words (title trimmed : str) : list str :=
  let words := preferred_words title trimmed in
  if 0 <? length words then words else fallback_words trimmed.

Definition all_words (extract target : str) : list str :=
  filter (fun w => (5 <? length w) && negb (lower_eqb w target))
         (split_ws extract).

(** the body of [for (const sentence of pool)], after the length check *)
Definition make_question (title extract sentence : str) (k : nat) : step_result :=
  let trimmed := trim sentence in
  let targetWords := target_words title trimmed in
  if 0 <? length targetWords then
    let target := strip_punct (nth (rnd k mod length targetWords) targetWords []) in
    let q := replace_first target blank trimmed in
    match fill_options fuel (S k) (all_words extract target) [target] with
    | None => OutOfFuel
    | Some (k', opts) =>
        Made (S k') (mkQuestion q (shuffle k' (pad_options opts)) target)
    end
  else Skip.

Fixpoint gen_loop (title extract : str) (pool : list str) (k : nat)
    (quiz : list WikiQuizQuestion) : option (list WikiQuizQuestion) :=
  match pool with
  | [] => Some quiz
  | sentence :: rest =>
      if 5 <=? length quiz then Some quiz
      else match make_question title extract sentence k with
           | Skip => gen_loop title extract rest k quiz
           | OutOfFuel => None
           | Made k' q => gen_loop title extract rest k' (quiz ++ [q])
           end
  end.

Definition sentence_pool (extract : str) : list str :=
  let paragraphs := filter (fun p => 100 <? length (trim p))
                           (split_on is_newline extract) in
  filter (fun s => (50 <? length (trim s)) && (length (trim s) <? 200))
         (flat_map (split_on is_sentence_end) paragraphs).

(** [None]: the distractor loop did not stop within the fuel bound. *)
Definition generateQuizFromExtract (title extract : str)
  : option (list WikiQuizQuestion) :=
  gen_loop title extract (shuffle 0 (sentence_pool extract)) 1 [].

End Generator.

(** ** Resolving an article: [parseWikiUrl] and [fetchWikiArticle] *)

(** The fields of a parsed [URL] object that [parseWikiUrl] reads;
    [searchParams] lists the decoded query pairs in their order. *)
Record URL := mkURL {
  hostname : str;
  pathname : str;
  searchParams : list (str * str)
}.

(** [urlObj.searchParams.get(name)]: the first value under [name]. *)
Fixpoint params_get (name : str) (ps : list (str * str)) : option str :=
  match ps with
  | [] => None
  | (k, v) :: ps' => if str_eqb k name then Some v else params_get name ps'
  end.

Fixpoint indexOf_from (x : str) (l : list str) (i : Z) : Z :=
  match l with
  | [] => (-1)%Z
  | y :: l' => if str_eqb y x then i else indexOf_from x l' (i + 1)
  end.

(** [arr.indexOf(x)] *)
Definition indexOf (x : str) (l : list str) : Z := indexOf_from x l 0.

(** [arr[i]] for a JS index; [None] is [undefined]. *)
Definition js_index (l : list str) (i : Z) : option str :=
  if (i <? 0)%Z then None else nth_error l (Z.to_nat i).

Definition hex_digit (n : nat) : ascii :=
  if n <? 10 then ascii_of_nat (48 + n) else ascii_of_nat (55 + n).

Definition uri_unreserved (c : ascii) : bool :=
  let n := nat_of_ascii c in
  ((65 <=? n) && (n <=? 90)) || ((97 <=? n) && (n <=? 122)) ||
  ((48 <=? n) && (n <=? 57)) ||
  existsb (Ascii.eqb c) (lit "-_.!~*'()").

(** [encodeURIComponent(s)] on ASCII strings *)
Definition encodeURIComponent (s : str) : str :=
  flat_map (fun c => if uri_unreserved c then [c]
                     else ["%"%char; hex_digit (nat_of_ascii c / 16);
                           hex_digit (nat_of_ascii c mod 16)]) s.

(** A page of [response.data.query.pages]; [page_missing] is the truthiness
    of [page.missing]. *)
Record Page := mkPage {
  page_title : str;
  page_extract : str;
  page_missing : bool
}.

(** What [axios.get] of the query API yields: a rejected request, a body
    without [query.pages], or the pages keyed by page id in the order of
    [Object.keys]. *)
Inductive ApiResponse :=
| Rejected
| NoPages
| Pages (pages : list (str * Page)).

Record Article := mkArticle {
  art_title : str;
  art_extract : str;
  art_url : str
}.

Inductive FetchError :=
| ArticleNotFoundError      (* [throw new Error('Article not found')] *)
| TypeError                 (* a property read on [undefined] *)
| RequestError.             (* the rejection of [axios.get] *)

(** what [fetchWikiArticle] makes of the API's answer *)
Definition fetch_result (r : ApiResponse) : FetchError + Article :=
  match r with
  | Rejected => inl RequestError
  | NoPages => inl TypeError
  | Pages [] => inl TypeError
  | Pages ((pageId, page) :: _) =>
      if page_missing page || str_eqb pageId (lit "-1")
      then inl ArticleNotFoundError
      else inr (mkArticle (page_title page) (page_extract page)
                  (lit "https://en.wikipedia.org/wiki/"
                   ++ encodeURIComponent (page_title page)))
  end.

Section Resolver.

(** [decodeURIComponent]; [None] is a thrown [URIError]. *)
Variable decodeURIComponent : str -> option str.
(** [new URL(s)]; [None] is a thrown [TypeError]. *)
Variable URL_parse : str -> option URL.
(** the query API, by the [titles] parameter *)
Variable wiki_api : str -> ApiResponse.

Definition parseWikiUrl_obj (u : URL) : option str :=
  if includes (hostname u) (lit "wikipedia.org") then
    let pathParts := split_on is_slash (pathname u) in
    let wikiIndex := indexOf (lit "wiki") pathParts in
    let next := if (wikiIndex =? -1)%Z then None
                else js_index pathParts (wikiIndex + 1) in
    match next with
    | Some ((_ :: _) as seg) => decodeURIComponent seg
    | _ =>
        match params_get (lit "title") (searchParams u) with
        | Some ((_ :: _) as titleParam) => Some titleParam
        | _ => None
        end
    end
  else None.

Definition parseWikiUrl (url : str) : option str :=
  match URL_parse url with
  | None => None
  | Some u => parseWikiUrl_obj u
  end.

(** [parseWikiUrl(titleOrUrl) || titleOrUrl] *)
Definition resolve_title (titleOrUrl : str) : str :=
  match parseWikiUrl titleOrUrl with
  | Some ((_ :: _) as t) => t
  | _ => titleOrUrl
  end.

Definition fetchWikiArticle (titleOrUrl : str) : FetchError + Article :=
  fetch_result (wiki_api (resolve_title titleOrUrl)).

End Resolver.

(** ** History: [saveToHistory] in App.tsx *)

Record QuizResult := mkResult {
  res_question : str;
  res_answer : str;
  res_selected : str;
  res_isCorrect : bool
}.

Record HistoryItem := mkHistoryItem {
  h_url : str;
  topic : str;
  score : Z;
  total : Z;
  date : str;
  results : list QuizResult
}.

Fixpoint findIndex_from {A} (p : A -> bool) (l : list A) (i : Z) : Z :=
  match l with
  | [] => (-1)%Z
  | x :: l' => if p x then i else findIndex_from p l' (i + 1)
  end.

(** [a.findIndex(p)] *)
Definition findIndex {A} (p : A -> bool) (l : list A) : Z := findIndex_from p l 0.

Fixpoint filter_idx_from {A} (f : A -> Z -> bool) (l : list A) (i : Z) : list A :=
  match l with
  | [] => []
  | v :: l' =>
      if f v i then v :: filter_idx_from f l' (i + 1)
      else filter_idx_from f l' (i + 1)
  end.

(** [a.filter((v, i) => f(v, i))] *)
Definition filter_idx {A} (f : A -> Z -> bool) (l : list A) : list A :=
  filter_idx_from f l 0.

Definition same_entry (t v : HistoryItem) : bool :=
  str_eqb (h_url t) (h_url v) && str_eqb (date t) (date v).

Definition entry_key (h : HistoryItem) : str * str := (h_url h, date h).

(** The React [history] state and the list under [wiki_quiz_history] in
    [localStorage] (its JSON encoding is not modelled). *)
Record AppState := mkAppState {
  history : list HistoryItem;
  stored : list HistoryItem
}.

Definition saveToHistory (st : AppState) (item : HistoryItem) : AppState :=
  let a := item :: history st in
  let newHistory :=
    filter_idx (fun v i => (findIndex (fun t => same_entry t v) a =? i)%Z) a in
  mkAppState newHistory newHistory.

(** [answer.endsWith(',') || answer.endsWith('.') || answer.endsWith(';')] *)
Definition ends_with_punct (w : str) : bool :=
  match rev w with
  | c :: _ => is_punct c
  | [] => false
  end.

Definition hex_val (c : ascii) : option nat :=
  let n := nat_of_ascii c in
  if (48 <=? n) && (n <=? 57) then Some (n - 48)
  else if (65 <=? n) && (n <=? 70) then Some (n - 55)
  else if (97 <=? n) && (n <=? 102) then Some (n - 87)
  else None.

(** [decodeURIComponent] on the ASCII fragment: an escape of a byte at or
    above 0x80 starts a UTF-8 sequence whose character lies outside the
    ASCII model, and is refused here like a malformed escape. *)
Fixpoint decodeURIComponent_ascii (s : str) : option str :=
  match s with
  | [] => Some []
  | c :: s' =>
      if Ascii.eqb c "%"%char then
        match s' with
        | h1 :: h2 :: s'' =>
            match hex_val h1, hex_val h2 with
            | Some a, Some b =>
                if a * 16 + b <? 128 then
                  option_map (cons (ascii_of_nat (a * 16 + b)))
                             (decodeURIComponent_ascii s'')
                else None
            | _, _ => None
            end
        | _ => None
        end
      else option_map (cons c) (decodeURIComponent_ascii s')
  end.

(** The filter of [saveToHistory] in recursive form: an element is kept
    when no earlier element of the whole array ([pre], then the part of
    [l] already passed) has its url and date. *)
Fixpoint first_entries (pre l : list HistoryItem) : list HistoryItem :=
  match l with
  | [] => []
  | v :: l' =>
      if existsb (fun t => same_entry t v) pre
      then first_entries (pre ++ [v]) l'
      else v :: first_entries (pre ++ [v]) l'
  end.

(** ** The quiz session of App.tsx: [startQuiz] and [handleAnswer] *)

(** The React state the two handlers read and write.  The [loading] flag
    and the [lastScoreForUrl] badge are display state and are left out;
    [appState] holds [history] and the [localStorage] copy. *)
Record Session := mkSession {
  quiz : list WikiQuizQuestion;
  currentIndex : nat;
  quizScore : nat;
  selectedOption : option str;
  isCorrect : option bool;
  currentResults : list QuizResult;
  showResult : bool;
  inputUrl : str;
  articleTitle : str;
  appState : AppState
}.

(** [handleAnswer(option)] followed by its [setTimeout] callback, with no
    other event in between; [opt] is the clicked [option] and [now] is
    [new Date().toLocaleString()].  [None]
    is the [TypeError] of [quiz[currentIndex].answer] past the end. *)
Definition handleAnswer (now opt : str) (st : Session) : option Session :=
  match selectedOption st with
  | Some (_ :: _) => Some st
  | _ =>
      match nth_error (quiz st) (currentIndex st) with
      | None => None
      | Some q =>
          let correct := str_eqb opt (answer q) in
          let result := mkResult (question q) (answer q) opt correct in
          let results' := currentResults st ++ [result] in
          let score' := if correct then S (quizScore st) else quizScore st in
          if currentIndex st <? length (quiz st) - 1 then
            Some (mkSession (quiz st) (S (currentIndex st)) score' None None
                    results' (showResult st) (inputUrl st) (articleTitle st)
                    (appState st))
          else
            let finalScore := quizScore st + (if correct then 1 else 0) in
            let historyItem :=
              mkHistoryItem (inputUrl st) (articleTitle st) (Z.of_nat finalScore)
                (Z.of_nat (length (quiz st))) now results' in
            Some (mkSession (quiz st) (currentIndex st) score' (Some opt)
                    (Some correct) results' true [] (articleTitle st)
                    (saveToHistory (appState st) historyItem))
      end
  end.

(** [startQuiz(url)] once its promise has settled: the new session and
    whether the [alert] was shown.  [fetch] is [fetchWikiArticle] and
    [generate] is [generateQuizFromExtract]; [None] is a generator that
    does not return. *)
Definition startQuiz (fetch : str -> FetchError + Article)
    (generate : str -> str -> option (list WikiQuizQuestion))
    (url : str) (st : Session) : option (Session * bool) :=
  match url with
  | [] => Some (st, false)
  | _ =>
      let reset := mkSession [] 0 0 None None [] false (inputUrl st)
                     (articleTitle st) (appState st) in
      match fetch url with
      | inl _ => Some (reset, true)
      | inr article =>
          let reset' := mkSession [] 0 0 None None [] false (inputUrl st)
                          (art_title article) (appState st) in
          match generate (art_title article) (art_extract article) with
          | None => None
          | Some [] => Some (reset', true)
          | Some generatedQuiz =>
              Some (mkSession generatedQuiz 0 0 None None [] false
                      (inputUrl st) (art_title article) (appState st), false)
          end
      end
  end.

(** one click per question, in order *)
Fixpoint answer_all (now : str) (choices : list str) (st : Session)
  : option Session :=
  match choices with
  | [] => Some st
  | c :: cs =>
      match handleAnswer now c st with
      | None => None
      | Some st' => answer_all now cs st'
      end
  end.

(** how many of the choices are the answers of the questions *)
Fixpoint count_correct (choices : list str) (qs : list WikiQuizQuestion) : nat :=
  match choices, qs with
  | c :: cs, q :: qs' =>
      (if str_eqb c (answer q) then 1 else 0) + count_correct cs qs'
  | _, _ => 0
  end.

(** the test of [history.find(h => h.url.includes(url) || url.includes(h.url))] *)
Definition matches_url (url : str) (h : HistoryItem) : bool :=
  includes (h_url h) url || includes url (h_url h).

(** the [useEffect] that sets [lastScoreForUrl] from [inputUrl] *)
Definition lastScoreForUrl (hist : list HistoryItem) (inputUrl : str) : option Z :=
  match inputUrl with
  | [] => None
  | _ =>
      match find (matches_url inputUrl) hist with
      | Some existing => Some (score existing)
      | None => None
      end
  end.

(** ** Concrete inputs *)

Definition rnd_count (k : nat) : nat := k.
Definition keep_order (k : nat) (l : list str) : list str := l.

(** Two long words only: once both are options no third one can be found. *)
Definition stuck_extract : str :=
  lit "Berlin London Berlin London Berlin London Berlin London Berlin London Berlin London Berlin London Berlin London".

(** The preferred candidate [Berlin,;] ends with two punctuation marks. *)
Definition double_punct_extract : str :=
  lit "the cat sat on the mat and the dog sat on the log with Berlin,; and heavens garden forests flowers a dog ran far off".

(** The only fallback candidate is a run of seven underscores. *)
Definition underscore_extract : str :=
  lit "the cat sat on the mat and the dog sat on the log with _______ and a garden forest flower the dog ran far off".

Definition quiz_title : str := lit "Quiz".

Definition first_question (r : option (list WikiQuizQuestion)) : WikiQuizQuestion :=
  match r with
  | Some (q :: _) => q
  | _ => mkQuestion [] [] []
  end.

Definition double_punct_question : WikiQuizQuestion :=
  Eval vm_compute in first_question
    (generateQuizFromExtract rnd_count keep_order 100 quiz_title double_punct_extract).

Definition underscore_question : WikiQuizQuestion :=
  Eval vm_compute in first_question
    (generateQuizFromExtract rnd_count keep_order 100 quiz_title underscore_extract).

(** [new URL(s)] at the sample URLs used below *)
Definition index_php_url : str := lit "https://en.wikipedia.org/w/index.php?title=Foo".
Definition other_host_url : str := lit "https://example.org/w/index.php?title=Foo".

Definition sample_URL_parse (s : str) : option URL :=
  if str_eqb s index_php_url then
    Some (mkURL (lit "en.wikipedia.org") (lit "/w/index.php") [(lit "title", lit "Foo")])
  else if str_eqb s other_host_url then
    Some (mkURL (lit "example.org") (lit "/w/index.php") [(lit "title", lit "Foo")])
  else None.

(** the parsed [URL] of [https://<lang>.wikipedia.org/wiki/<title>], for a
    title the URL parser leaves as written *)
Definition article_url (lang title : str) : URL :=
  mkURL (lang ++ lit ".wikipedia.org") (lit "/wiki/" ++ title) [].

(** [new URL] of [https://en.wikipedia.org/wiki/C%2B%2B] *)
Definition cpp_URL_parse (s : str) : option URL :=
  if str_eqb s (lit "https://en.wikipedia.org/wiki/C%2B%2B")
  then Some (article_url (lit "en") (lit "C%2B%2B")) else None.

(** a query API that knows no article *)
Definition api_missing (title : str) : ApiResponse :=
  Pages [(lit "-1", mkPage title [] true)].

(** An extract without any line longer than 100 characters. *)
Definition short_extract : str := lit "Berlin is a city. It is the capital of Germany.".

(** a query API and an article for the session runs below *)
Definition quiz_page : Page := mkPage quiz_title double_punct_extract false.
Definition api_quiz (title : str) : ApiResponse := Pages [(lit "42", quiz_page)].
Definition acdc_api : ApiResponse := Pages [(lit "7", mkPage (lit "AC/DC") [] false)].

Definition quiz_url : str := lit "https://en.wikipedia.org/wiki/Quiz".

Definition sample_fetch (url : str) : FetchError + Article :=
  fetchWikiArticle decodeURIComponent_ascii sample_URL_parse api_quiz url.

Definition sample_generate : str -> str -> option (list WikiQuizQuestion) :=
  generateQuizFromExtract rnd_count keep_order 100.

Definition fresh_session : Session :=
  mkSession [] 0 0 None None [] false quiz_url [] (mkAppState [] []).

Definition started_session : Session :=
  Eval vm_compute in
    match startQuiz sample_fetch sample_generate quiz_url fresh_session with
    | Some (st, _) => st
    | None => fresh_session
    end.

Definition finished_session : Session :=
  Eval vm_compute in
    match handleAnswer (lit "16/10/2026, 10:00:00") (answer double_punct_question)
            started_session with
    | Some st => st
    | None => started_session
    end.

Definition older_item : HistoryItem :=
  mkHistoryItem quiz_url quiz_title 2 5 (lit "15/10/2026, 09:00:00") [].
Definition newer_item : HistoryItem :=
  mkHistoryItem quiz_url quiz_title 4 5 (lit "16/10/2026, 10:00:00") [].
Definition empty_url_item : HistoryItem :=
  mkHistoryItem [] quiz_title 3 5 (lit "14/10/2026, 08:00:00") [].

(** [new URL(s)] of a [/wiki/] path that also carries a [title] parameter *)
Definition wiki_and_title_URL : URL :=
  mkURL (lit "en.wikipedia.org") (lit "/wiki/Berlin") [(lit "title", lit "Paris")].

Definition wiki_and_title_parse (s : str) : option URL := Some wiki_and_title_URL.

(** ** Facts about the string primitives *)

Lemma str_eqb_eq (a b : str) : str_eqb a b = true <-> a = b.
Proof.
  revert b; induction a as [|x a IH]; intros [|y b]; simpl;
    try (split; congruence).
  rewrite andb_true_iff, IH, Ascii.eqb_eq. split.
  - intros [-> ->]; reflexivity.
  - intros H; injection H; auto.
Qed.

Lemma str_eqb_refl (a : str) : str_eqb a a = true.
Proof. apply str_eqb_eq; reflexivity. Qed.

Lemma is_prefix_spec (p s : str) :
  is_prefix p s = true <-> exists r, s = p ++ r.
Proof.
  revert s; induction p as [|x p IH]; intros [|y s]; simpl.
  - split; eauto.
  - split; eauto.
  - split; [discriminate | intros [r Hr]; discriminate].
  - rewrite andb_true_iff, Ascii.eqb_eq, IH. split.
    + intros [-> [r ->]]; eauto.
    + intros [r Hr]; injection Hr as -> ->; eauto.
Qed.

Lemma split_on_not_nil (p : ascii -> bool) (s : str) : split_on p s <> [].
Proof.
  induction s as [|c s IH]; simpl; [discriminate|].
  destruct (p c); [discriminate|].
  destruct (split_on p s); [contradiction | discriminate].
Qed.

(** Every segment of [s.split(sep)] occurs in [s] and contains no separator. *)
Lemma split_on_segments (p : ascii -> bool) (s : str) w0 ws :
  split_on p s = w0 :: ws ->
  (exists r, s = w0 ++ r) /\
  (forall w, In w ws -> exists a b, s = a ++ w ++ b).
Proof.
  revert w0 ws; induction s as [|c s IH]; intros w0 ws Hs; simpl in Hs.
  - injection Hs as <- <-. split; [exists []; reflexivity | contradiction].
  - destruct (split_on p s) as [|v vs] eqn:E;
      [exfalso; exact (split_on_not_nil p s E)|].
    destruct (IH v vs eq_refl) as [[r Hr] Hvs].
    destruct (p c); injection Hs as <- <-.
    + split; [exists (c :: s); reflexivity|].
      intros w [<- | Hw].
      * exists [c], r. simpl. rewrite Hr. reflexivity.
      * destruct (Hvs w Hw) as [a [b Hab]].
        exists (c :: a), b. simpl. rewrite Hab. reflexivity.
    + split; [exists r; simpl; rewrite Hr; reflexivity|].
      intros w Hw. destruct (Hvs w Hw) as [a [b Hab]].
      exists (c :: a), b. simpl. rewrite Hab. reflexivity.
Qed.

Lemma split_on_sub (p : ascii -> bool) (s w : str) :
  In w (split_on p s) -> exists a b, s = a ++ w ++ b.
Proof.
  destruct (split_on p s) as [|w0 ws] eqn:E; [contradiction|].
  destruct (split_on_segments p s w0 ws E) as [[r Hr] Hws].
  intros [<- | Hw]; [exists [], r; exact Hr | exact (Hws w Hw)].
Qed.

Lemma split_on_no_sep (p : ascii -> bool) (s w : str) :
  In w (split_on p s) -> forall x, In x w -> p x = false.
Proof.
  revert w; induction s as [|c s IH]; intros w Hw x Hx; simpl in Hw.
  - destruct Hw as [<- | []]; contradiction.
  - destruct (p c) eqn:Hc.
    + destruct Hw as [<- | Hw]; [contradiction | exact (IH w Hw x Hx)].
    + destruct (split_on p s) as [|v vs] eqn:E.
      * destruct Hw as [<- | []]. destruct Hx as [<- | []]; exact Hc.
      * destruct Hw as [<- | Hw].
        -- destruct Hx as [<- | Hx]; [exact Hc|].
           apply (IH v); [left; reflexivity | exact Hx].
        -- apply (IH w); [right; exact Hw | exact Hx].
Qed.

Lemma strip_punct_cases (w : str) :
  strip_punct w = w \/
  exists c, w = strip_punct w ++ [c] /\ is_punct c = true.
Proof.
  unfold strip_punct. destruct (rev w) as [|c r] eqn:E; [left; reflexivity|].
  destruct (is_punct c) eqn:Hc; [right | left; reflexivity].
  exists c. split; [|exact Hc].
  rewrite <- (rev_involutive w), E. reflexivity.
Qed.

Lemma strip_punct_length (w : str) : length w <= S (length (strip_punct w)).
Proof.
  destruct (strip_punct_cases w) as [-> | [c [Hw _]]]; [lia|].
  rewrite Hw at 1. rewrite length_app. simpl. lia.
Qed.

Lemma strip_punct_prefix (w : str) : exists r, w = strip_punct w ++ r.
Proof.
  destruct (strip_punct_cases w) as [E | [c [Hw _]]].
  - exists []. rewrite E, app_nil_r. reflexivity.
  - exists [c]. exact Hw.
Qed.

Lemma ends_with_punct_spec (w : str) :
  ends_with_punct w = true <-> exists pre c, w = pre ++ [c] /\ is_punct c = true.
Proof.
  unfold ends_with_punct. split.
  - destruct (rev w) as [|c r] eqn:E; [discriminate|]. intros Hc.
    exists (rev r), c. split; [|exact Hc].
    rewrite <- (rev_involutive w), E. reflexivity.
  - intros [pre [c [-> Hc]]]. rewrite rev_app_distr. exact Hc.
Qed.

(** [strip_punct] removes one character: the result ends in punctuation only
    when the word ended in two punctuation characters. *)
Lemma strip_punct_ends (w : str) :
  ends_with_punct (strip_punct w) = true ->
  exists pre c1 c2, w = pre ++ [c1; c2] /\ is_punct c1 = true /\ is_punct c2 = true.
Proof.
  intros H. destruct (strip_punct_cases w) as [E | [c2 [Hw Hc2]]].
  - exfalso. rewrite E in H. unfold strip_punct in E.
    unfold ends_with_punct in H.
    destruct (rev w) as [|c r] eqn:R; [discriminate|]. rewrite H in E.
    assert (Hl : length (rev r) = length w) by (rewrite E; reflexivity).
    rewrite <- (rev_involutive w), R in Hl. rewrite length_rev in Hl.
    simpl in Hl. rewrite length_app, length_rev in Hl. simpl in Hl. lia.
  - apply ends_with_punct_spec in H as [pre [c1 [Hs Hc1]]].
    exists pre, c1, c2. split; [|auto].
    rewrite Hw, Hs, <- app_assoc. reflexivity.
Qed.

(** [s.replace(pat, rep)] replaces the first occurrence of [pat]. *)
Lemma replace_first_spec (pat rep s : str) :
  (exists a b, s = a ++ pat ++ b) ->
  exists pre suf,
    s = pre ++ pat ++ suf /\
    replace_first pat rep s = pre ++ rep ++ suf /\
    (forall pre' suf', s = pre' ++ pat ++ suf' -> length pre <= length pre').
Proof.
  induction s as [|c s IH]; intros [a [b Hab]].
  - destruct a, pat; try discriminate. simpl in Hab. subst b.
    exists [], []. split; [reflexivity|]. split; [|intros; simpl; lia].
    simpl. rewrite app_nil_r. reflexivity.
  - simpl. destruct (is_prefix pat (c :: s)) eqn:Hp.
    + apply is_prefix_spec in Hp as [r Hr].
      exists [], r. repeat split; [exact Hr| |intros; simpl; lia].
      rewrite Hr, skipn_app, Nat.sub_diag, skipn_all. reflexivity.
    + destruct a as [|x a].
      * exfalso. assert (is_prefix pat (c :: s) = true) as Hc
          by (apply is_prefix_spec; exists b; exact Hab). congruence.
      * injection Hab as <- Hs.
        destruct (IH (ex_intro _ a (ex_intro _ b Hs))) as [pre [suf [H1 [H2 H3]]]].
        exists (c :: pre), suf. repeat split.
        -- rewrite H1. reflexivity.
        -- rewrite H2. reflexivity.
        -- intros [|y pre'] suf' E.
           ++ exfalso. assert (is_prefix pat (c :: s) = true) as Hc
                by (apply is_prefix_spec; exists suf'; exact E). congruence.
           ++ injection E as _ E. simpl. specialize (H3 pre' suf' E). lia.
Qed.

Lemma to_lower_char_space (c : ascii) : to_lower_char c = " "%char -> c = " "%char.
Proof.
  unfold to_lower_char. destruct (is_upper c) eqn:E; [|auto].
  unfold is_upper in E. apply andb_true_iff in E as [E1 E2].
  apply Nat.leb_le in E1, E2. intros H.
  apply (f_equal nat_of_ascii) in H.
  change (nat_of_ascii " "%char) with 32 in H.
  rewrite nat_ascii_embedding in H; lia.
Qed.

Lemma toLowerCase_no_space (w : str) :
  ~ In " "%char w -> ~ In " "%char (toLowerCase w).
Proof.
  intros H Hin. unfold toLowerCase in Hin. apply in_map_iff in Hin as [c [Hc Hin]].
  apply to_lower_char_space in Hc. subst c. contradiction.
Qed.

(** ** Facts about the generator *)

Section GeneratorFacts.

Variable rnd : nat -> nat.
Variable shuffle : nat -> list str -> list str.
Variable fuel : nat.

Lemma nth_mod_In (k : nat) (l : list str) :
  0 < length l -> In (nth (rnd k mod length l) l []) l.
Proof. intros H. apply nth_In, Nat.mod_upper_bound. lia. Qed.

Lemma target_words_spec (title trimmed w : str) :
  In w (target_words title trimmed) ->
  In w (split_on is_space trimmed) /\ 5 < length w.
Proof.
  unfold target_words, preferred_words, fallback_words.
  destruct (0 <? length _); intros Hw; apply filter_In in Hw as [Hw Hp];
    split; auto.
  - apply andb_true_iff in Hp as [Hp _]. apply andb_true_iff in Hp as [Hp _].
    apply Nat.ltb_lt in Hp. exact Hp.
  - apply Nat.ltb_lt in Hp. lia.
Qed.

(** The invariant of the distractor loop: options stay case-insensitively
    distinct, only grow, and the loop leaves with 4 of them or with an
    empty pool it never sampled from. *)
Lemma fill_options_inv (n k : nat) (aw opts : list str) k' opts' :
  fill_options rnd n k aw opts = Some (k', opts') ->
  NoDup (map toLowerCase opts) -> length opts <= 4 ->
  NoDup (map toLowerCase opts') /\ (exists ext, opts' = opts ++ ext) /\
  (length opts' = 4 \/ (aw = [] /\ opts' = opts)).
Proof.
  revert k opts; induction n as [|n IH]; intros k opts Hf Hnd Hlen;
    simpl in Hf; [discriminate|].
  destruct ((length opts <? 4) && (0 <? length aw)) eqn:Hc.
  - apply andb_true_iff in Hc as [Hc Haw]. apply Nat.ltb_lt in Hc, Haw.
    set (fake := strip_punct (nth (rnd k mod length aw) aw [])) in Hf.
    destruct (existsb (fun o => lower_eqb o fake) opts) eqn:He.
    + exact (IH _ _ Hf Hnd Hlen).
    + assert (Hnd' : NoDup (map toLowerCase (opts ++ [fake]))).
      { rewrite map_app. simpl.
        apply (Permutation_NoDup (Permutation_cons_append _ _)).
        constructor; [|exact Hnd].
        intros Hin. apply in_map_iff in Hin as [o [Ho Hin]].
        assert (existsb (fun o => lower_eqb o fake) opts = true) as Ht.
        { apply existsb_exists. exists o. split; [exact Hin|].
          unfold lower_eqb. rewrite Ho. apply str_eqb_refl. }
        congruence. }
      assert (Hlen' : length (opts ++ [fake]) <= 4)
        by (rewrite length_app; simpl; lia).
      destruct (IH _ _ Hf Hnd' Hlen') as [H1 [[ext Hext] H3]].
      split; [exact H1|]. split.
      * exists (fake :: ext). rewrite Hext, <- app_assoc. reflexivity.
      * destruct H3 as [H3 | [H3 H4]]; [left; exact H3|].
        subst aw. simpl in Haw. lia.
  - injection Hf as <- <-. split; [exact Hnd|].
    split; [exists []; rewrite app_nil_r; reflexivity|].
    apply andb_false_iff in Hc as [Hc | Hc]; apply Nat.ltb_ge in Hc.
    + left. lia.
    + right. destruct aw; [auto | simpl in Hc; lia].
Qed.

Lemma gen_loop_made (title extract : str) pool k quiz qs q :
  gen_loop rnd shuffle fuel title extract pool k quiz = Some qs -> In q qs ->
  In q quiz \/
  exists s k0 k1, In s pool /\ make_question rnd shuffle fuel title extract s k0 = Made k1 q.
Proof.
  revert k quiz; induction pool as [|s pool IH]; intros k quiz Hg Hq; cbn [gen_loop] in Hg.
  - injection Hg as <-. left; exact Hq.
  - destruct (5 <=? length quiz); [injection Hg as <-; left; exact Hq|].
    destruct (make_question rnd shuffle fuel title extract s k) as [| |km qm] eqn:Hm;
      [| discriminate |].
    + destruct (IH _ _ Hg Hq) as [H | [s' [k0 [k1 [Hs Hm']]]]]; [left; exact H|].
      right. exists s', k0, k1. split; [right; exact Hs | exact Hm'].
    + destruct (IH _ _ Hg Hq) as [H | [s' [k0 [k1 [Hs Hm']]]]].
      * apply in_app_or in H as [H | [<- | []]]; [left; exact H|].
        right. exists s, k, km. split; [left; reflexivity | exact Hm].
      * right. exists s', k0, k1. split; [right; exact Hs | exact Hm'].
Qed.

(** Every question returned comes from one sentence of the shuffled pool. *)
Lemma generate_made (title extract : str) qs q :
  generateQuizFromExtract rnd shuffle fuel title extract = Some qs -> In q qs ->
  exists s k0 k1,
    In s (shuffle 0 (sentence_pool extract)) /\
    make_question rnd shuffle fuel title extract s k0 = Made k1 q.
Proof.
  unfold generateQuizFromExtract. intros Hg Hq.
  destruct (gen_loop_made _ _ _ _ _ _ _ Hg Hq) as [[] | H]; exact H.
Qed.

Lemma make_question_inv (title extract s : str) k k' q :
  make_question rnd shuffle fuel title extract s k = Made k' q ->
  exists w k'' opts,
    In w (target_words title (trim s)) /\
    answer q = strip_punct w /\
    question q = replace_first (answer q) blank (trim s) /\
    fill_options rnd fuel (S k) (all_words extract (answer q)) [answer q]
      = Some (k'', opts) /\
    options q = shuffle k'' (pad_options opts).
Proof.
  unfold make_question.
  destruct (0 <? length (target_words title (trim s))) eqn:Hl; [|discriminate].
  apply Nat.ltb_lt in Hl.
  set (w := nth _ (target_words title (trim s)) []).
  destruct (fill_options rnd fuel _ _ _) as [[k'' opts]|] eqn:Hf; [|discriminate].
  intros H. injection H as _ <-. simpl.
  exists w, k'', opts. repeat split; auto. apply nth_mod_In. exact Hl.
Qed.

End GeneratorFacts.

Lemma fill_options_stuck (rnd : nat -> nat) (o t : str) (m n k : nat) opts :
  0 < m -> strip_punct o = o -> lower_eqb t o = false ->
  opts = [t] \/ opts = [t; o] ->
  fill_options rnd n k (repeat o m) opts = None.
Proof.
  intros Hm Hs Hto. revert k opts. induction n as [|n IH]; intros k opts Hopts;
    [reflexivity|].
  cbn [fill_options]. rewrite repeat_length.
  assert (Hn : nth (rnd k mod m) (repeat o m) [] = o).
  { apply (repeat_spec m). apply nth_In. rewrite repeat_length.
    apply Nat.mod_upper_bound. lia. }
  rewrite Hn, Hs.
  assert (Hc : (length opts <? 4) && (0 <? m) = true).
  { apply andb_true_iff. split; apply Nat.ltb_lt; [|lia].
    destruct Hopts as [-> | ->]; simpl; lia. }
  rewrite Hc. apply IH.
  destruct Hopts as [-> | ->]; simpl; rewrite Hto; simpl.
  - right; reflexivity.
  - replace (lower_eqb o o) with true by (symmetry; apply str_eqb_refl).
    right; reflexivity.
Qed.

Section GeneratorClaims.

Variable rnd : nat -> nat.
Variable shuffle : nat -> list str -> list str.
Variable fuel : nat.

Lemma answer_occurs (title extract s : str) k k' q :
  make_question rnd shuffle fuel title extract s k = Made k' q ->
  exists w, In w (split_on is_space (trim s)) /\ 5 < length w /\
            answer q = strip_punct w /\
            question q = replace_first (answer q) blank (trim s).
Proof.
  intros Hm. destruct (make_question_inv _ _ _ _ _ _ _ _ _ Hm)
    as [w [k'' [opts [Hw [Ha [Hq _]]]]]].
  apply target_words_spec in Hw as [Hw Hl]. exists w. auto.
Qed.

Lemma answer_no_space (title extract s : str) k k' q :
  make_question rnd shuffle fuel title extract s k = Made k' q ->
  ~ In " "%char (answer q).
Proof.
  intros Hm Hin. destruct (answer_occurs _ _ _ _ _ _ Hm) as [w [Hw [_ [Ha _]]]].
  destruct (strip_punct_prefix w) as [r Hr]. rewrite <- Ha in Hr.
  assert (is_space " "%char = false) as H.
  { apply (split_on_no_sep _ _ _ Hw). rewrite Hr. apply in_or_app. left; exact Hin. }
  discriminate H.
Qed.

Lemma pad_options_full (opts : list str) :
  length opts = 4 -> pad_options opts = opts.
Proof. unfold pad_options. intros ->. reflexivity. Qed.

Lemma pad_options_single (t : str) :
  ~ In " "%char t ->
  length (pad_options [t]) = 4 /\ NoDup (map toLowerCase (pad_options [t])) /\
  In t (pad_options [t]).
Proof.
  intros Ht.
  change (pad_options [t]) with [t; lit "Option 1"; lit "Option 2"; lit "Option 3"].
  split; [reflexivity|]. split; [|left; reflexivity].
  apply toLowerCase_no_space in Ht.
  change (map toLowerCase [t; lit "Option 1"; lit "Option 2"; lit "Option 3"])
    with [toLowerCase t; lit "option 1"; lit "option 2"; lit "option 3"].
  constructor.
  - intros [H | [H | [H | []]]]; apply Ht; rewrite <- H; cbn;
      do 6 right; left; reflexivity.
  - repeat constructor; simpl; intuition discriminate.
Qed.

Hypothesis shuffle_perm : forall k l, Permutation (shuffle k l) l.

(** C2: every question returned by [generateQuizFromExtract] has exactly
    four options, pairwise distinct up to case, and its answer is one of
    them up to case. *)
Theorem quiz_options_four_distinct (title extract : str) qs q :
  generateQuizFromExtract rnd shuffle fuel title extract = Some qs -> In q qs ->
  length (options q) = 4 /\ NoDup (map toLowerCase (options q)) /\
  exists o, In o (options q) /\ lower_eqb o (answer q) = true.
Proof.
  intros Hg Hq. destruct (generate_made _ _ _ _ _ _ _ Hg Hq) as [s [k0 [k1 [_ Hm]]]].
  pose proof (answer_no_space _ _ _ _ _ _ Hm) as Hsp.
  destruct (make_question_inv _ _ _ _ _ _ _ _ _ Hm)
    as [w [k'' [opts [_ [_ [_ [Hf Ho]]]]]]].
  destruct (fill_options_inv _ _ _ _ _ _ _ Hf) as [Hnd [[ext Hext] Hcase]];
    [repeat constructor; intros [] | simpl; lia |].
  assert (HP : length (pad_options opts) = 4 /\
               NoDup (map toLowerCase (pad_options opts)) /\
               In (answer q) (pad_options opts)).
  { destruct Hcase as [H4 | [_ ->]].
    - rewrite pad_options_full by exact H4. split; [exact H4|]. split; [exact Hnd|].
      rewrite Hext. left; reflexivity.
    - apply pad_options_single. exact Hsp. }
  destruct HP as [HPl [HPnd HPin]].
  pose proof (Permutation_sym (shuffle_perm k'' (pad_options opts))) as Hperm.
  rewrite Ho. split; [rewrite <- (Permutation_length Hperm); exact HPl|].
  split; [exact (Permutation_NoDup (Permutation_map _ Hperm) HPnd)|].
  exists (answer q). split; [exact (Permutation_in _ Hperm HPin)|].
  apply str_eqb_refl.
Qed.

End GeneratorClaims.

Section GeneratorClaims2.

Variable rnd : nat -> nat.
Variable shuffle : nat -> list str -> list str.
Variable fuel : nat.

(** C10: the answer of every returned question is at least 5 characters
    long. *)
Theorem quiz_answer_min_length (title extract : str) qs q :
  generateQuizFromExtract rnd shuffle fuel title extract = Some qs -> In q qs ->
  5 <= length (answer q).
Proof.
  intros Hg Hq. destruct (generate_made _ _ _ _ _ _ _ Hg Hq) as [s [k0 [k1 [_ Hm]]]].
  destruct (answer_occurs _ _ _ _ _ _ _ _ _ Hm) as [w [_ [Hl [Ha _]]]].
  pose proof (strip_punct_length w). rewrite Ha. lia.
Qed.

(** C3 (amended): the question of every returned question is its trimmed
    sentence with the first occurrence of the answer replaced by the
    7-underscore blank. *)
Theorem quiz_question_masks_first (title extract : str) qs q :
  generateQuizFromExtract rnd shuffle fuel title extract = Some qs -> In q qs ->
  exists s pre suf,
    In s (shuffle 0 (sentence_pool extract)) /\
    trim s = pre ++ answer q ++ suf /\
    question q = pre ++ blank ++ suf /\
    (forall pre' suf', trim s = pre' ++ answer q ++ suf' ->
                       length pre <= length pre').
Proof.
  intros Hg Hq. destruct (generate_made _ _ _ _ _ _ _ Hg Hq) as [s [k0 [k1 [Hs Hm]]]].
  destruct (answer_occurs _ _ _ _ _ _ _ _ _ Hm) as [w [Hw [_ [Ha Hqq]]]].
  destruct (split_on_sub _ _ _ Hw) as [a [b Hab]].
  destruct (strip_punct_prefix w) as [r Hr]. rewrite <- Ha in Hr.
  assert (Hocc : exists a' b', trim s = a' ++ answer q ++ b').
  { exists a, (r ++ b). rewrite Hab, Hr, <- app_assoc. reflexivity. }
  destruct (replace_first_spec (answer q) blank (trim s) Hocc)
    as [pre [suf [H1 [H2 H3]]]].
  exists s, pre, suf. rewrite Hqq. auto.
Qed.

(** C7 (amended): the answer is a word of its sentence with at most one
    trailing [,], [.] or [;] removed; it still ends with one of them only
    when that word ended with two. *)
Theorem quiz_answer_strips_one (title extract : str) qs q :
  generateQuizFromExtract rnd shuffle fuel title extract = Some qs -> In q qs ->
  exists s w,
    In s (shuffle 0 (sentence_pool extract)) /\
    In w (split_on is_space (trim s)) /\
    answer q = strip_punct w /\
    (ends_with_punct (answer q) = true ->
     exists pre c1 c2, w = pre ++ [c1; c2] /\ is_punct c1 = true /\ is_punct c2 = true).
Proof.
  intros Hg Hq. destruct (generate_made _ _ _ _ _ _ _ Hg Hq) as [s [k0 [k1 [Hs Hm]]]].
  destruct (answer_occurs _ _ _ _ _ _ _ _ _ Hm) as [w [Hw [_ [Ha _]]]].
  exists s, w. repeat split; auto. rewrite Ha. apply strip_punct_ends.
Qed.

End GeneratorClaims2.

(** C1 (code defect): on this extract the distractor loop never stops, for
    every random source and every fuel bound: both long words become
    options and [allWords] is never shrunk, so the loop condition
    [options.length < 4 && allWords.length > 0] stays true. *)
Theorem distractor_loop_diverges (rnd : nat -> nat)
    (shuffle : nat -> list str -> list str) (fuel : nat) :
  (forall k l, Permutation (shuffle k l) l) ->
  generateQuizFromExtract rnd shuffle fuel quiz_title stuck_extract = None.
Proof.
  intros Hp. unfold generateQuizFromExtract.
  assert (Hpool : sentence_pool stuck_extract = [stuck_extract])
    by (vm_compute; reflexivity).
  rewrite Hpool.
  rewrite (Permutation_length_1_inv (Permutation_sym (Hp 0 [stuck_extract]))).
  cbn [gen_loop]. unfold make_question.
  replace (trim stuck_extract) with stuck_extract by (vm_compute; reflexivity).
  assert (HL : length (target_words quiz_title stuck_extract) = 16)
    by (vm_compute; reflexivity).
  assert (Hall : forallb (fun x => str_eqb x (lit "Berlin") || str_eqb x (lit "London"))
                   (target_words quiz_title stuck_extract) = true)
    by (vm_compute; reflexivity).
  rewrite forallb_forall in Hall.
  assert (Hin := nth_mod_In rnd 1 (target_words quiz_title stuck_extract)).
  rewrite HL in Hin |- *. specialize (Hall _ (Hin ltac:(lia))).
  apply orb_true_iff in Hall as [E | E]; apply str_eqb_eq in E; rewrite E;
    simpl (0 <? 16); cbv zeta.
  - change (strip_punct (lit "Berlin")) with (lit "Berlin").
    replace (all_words stuck_extract (lit "Berlin")) with (repeat (lit "London") 8)
      by (vm_compute; reflexivity).
    rewrite (fill_options_stuck rnd (lit "London") (lit "Berlin") 8 fuel 2 [lit "Berlin"]);
      [reflexivity | lia | reflexivity | reflexivity | left; reflexivity].
  - change (strip_punct (lit "London")) with (lit "London").
    replace (all_words stuck_extract (lit "London")) with (repeat (lit "Berlin") 8)
      by (vm_compute; reflexivity).
    rewrite (fill_options_stuck rnd (lit "Berlin") (lit "London") 8 fuel 2 [lit "London"]);
      [reflexivity | lia | reflexivity | reflexivity | left; reflexivity].
Qed.

Lemma distractor_loop_diverges_witness :
  generateQuizFromExtract rnd_count keep_order 100 quiz_title stuck_extract = None.
Proof.
  apply (distractor_loop_diverges rnd_count keep_order 100).
  intros k l. apply Permutation_refl.
Defined.

Lemma quiz_options_four_distinct_witness :
  generateQuizFromExtract rnd_count keep_order 100 quiz_title double_punct_extract
    = Some [double_punct_question] /\
  length (options double_punct_question) = 4 /\
  NoDup (map toLowerCase (options double_punct_question)) /\
  exists o, In o (options double_punct_question) /\
            lower_eqb o (answer double_punct_question) = true.
Proof.
  split; [vm_compute; reflexivity|].
  apply (quiz_options_four_distinct rnd_count keep_order 100
           (fun k l => Permutation_refl l) quiz_title double_punct_extract
           [double_punct_question]);
    [vm_compute; reflexivity | left; reflexivity].
Defined.

Lemma quiz_answer_min_length_witness :
  generateQuizFromExtract rnd_count keep_order 100 quiz_title double_punct_extract
    = Some [double_punct_question] /\
  5 <= length (answer double_punct_question).
Proof.
  split; [vm_compute; reflexivity|].
  apply (quiz_answer_min_length rnd_count keep_order 100 quiz_title
           double_punct_extract [double_punct_question]);
    [vm_compute; reflexivity | left; reflexivity].
Defined.

Lemma quiz_question_masks_first_witness :
  generateQuizFromExtract rnd_count keep_order 100 quiz_title double_punct_extract
    = Some [double_punct_question] /\
  exists s pre suf,
    In s (keep_order 0 (sentence_pool double_punct_extract)) /\
    trim s = pre ++ answer double_punct_question ++ suf /\
    question double_punct_question = pre ++ blank ++ suf /\
    (forall pre' suf', trim s = pre' ++ answer double_punct_question ++ suf' ->
                       length pre <= length pre').
Proof.
  split; [vm_compute; reflexivity|].
  apply (quiz_question_masks_first rnd_count keep_order 100 quiz_title
           double_punct_extract [double_punct_question]);
    [vm_compute; reflexivity | left; reflexivity].
Defined.

(** C3, as stated, fails: when the chosen word is itself a run of seven
    underscores the masked text is the answer. *)
Lemma quiz_question_mask_counterexample :
  ~ (forall rnd shuffle fuel title extract qs q,
       (forall k l, Permutation (shuffle k l) l) ->
       generateQuizFromExtract rnd shuffle fuel title extract = Some qs ->
       In q qs -> answer q <> blank).
Proof.
  intros H.
  apply (H rnd_count keep_order 100 quiz_title underscore_extract
           [underscore_question] underscore_question).
  - intros k l. apply Permutation_refl.
  - vm_compute. reflexivity.
  - left. reflexivity.
  - vm_compute. reflexivity.
Qed.

Lemma quiz_answer_strips_one_witness :
  generateQuizFromExtract rnd_count keep_order 100 quiz_title double_punct_extract
    = Some [double_punct_question] /\
  exists s w,
    In s (keep_order 0 (sentence_pool double_punct_extract)) /\
    In w (split_on is_space (trim s)) /\
    answer double_punct_question = strip_punct w /\
    (ends_with_punct (answer double_punct_question) = true ->
     exists pre c1 c2, w = pre ++ [c1; c2] /\ is_punct c1 = true /\ is_punct c2 = true).
Proof.
  split; [vm_compute; reflexivity|].
  apply (quiz_answer_strips_one rnd_count keep_order 100 quiz_title
           double_punct_extract [double_punct_question]);
    [vm_compute; reflexivity | left; reflexivity].
Defined.

(** C7, as stated, fails: the word [Berlin,;] yields the answer [Berlin,]. *)
Lemma quiz_answer_punct_counterexample :
  ~ (forall rnd shuffle fuel title extract qs q,
       (forall k l, Permutation (shuffle k l) l) ->
       generateQuizFromExtract rnd shuffle fuel title extract = Some qs ->
       In q qs -> ends_with_punct (answer q) = false).
Proof.
  intros H.
  assert (E : ends_with_punct (answer double_punct_question) = false).
  { apply (H rnd_count keep_order 100 quiz_title double_punct_extract
             [double_punct_question]).
    - intros k l. apply Permutation_refl.
    - vm_compute. reflexivity.
    - left. reflexivity. }
  vm_compute in E. discriminate E.
Qed.

(** ** Facts about the resolver *)

Lemma includes_intro (a pat b : str) : includes (a ++ pat ++ b) pat = true.
Proof.
  induction a as [|c a IH].
  - simpl. destruct (pat ++ b) as [|y r] eqn:E; simpl.
    + destruct pat; [reflexivity | discriminate].
    + rewrite (proj2 (is_prefix_spec pat (y :: r))); [reflexivity|].
      exists b. symmetry. exact E.
  - simpl. rewrite IH. apply orb_true_r.
Qed.

Lemma split_on_whole (p : ascii -> bool) (s : str) :
  (forall x, In x s -> p x = false) -> split_on p s = [s].
Proof.
  induction s as [|c s IH]; intros H; [reflexivity|]. simpl.
  rewrite (H c (or_introl eq_refl)), IH; [reflexivity|].
  intros x Hx. apply H. right. exact Hx.
Qed.

Lemma indexOf_from_spec (x : str) (l : list str) (j : Z) :
  indexOf_from x l j = (-1)%Z \/
  exists pre rest, l = pre ++ x :: rest /\
                   indexOf_from x l j = (j + Z.of_nat (length pre))%Z /\
                   (0 <= j -> 0 <= j + Z.of_nat (length pre))%Z.
Proof.
  revert j; induction l as [|y l IH]; intros j; simpl; [left; reflexivity|].
  destruct (str_eqb y x) eqn:E.
  - right. apply str_eqb_eq in E. subst y. exists [], l. simpl. split; [reflexivity|].
    split; lia.
  - destruct (IH (j + 1)%Z) as [H | [pre [rest [H1 [H2 H3]]]]]; [left; exact H|].
    right. exists (y :: pre), rest. rewrite H2, H1. simpl.
    split; [reflexivity|]. split; lia.
Qed.

Section ResolverClaims.

Variable decodeURIComponent : str -> option str.
Variable URL_parse : str -> option URL.
Variable wiki_api : str -> ApiResponse.

(** C9: a URL whose hostname does not contain [wikipedia.org] parses to
    null, so [fetchWikiArticle] queries the whole input as a title. *)
Theorem non_wikipedia_url_passthrough (url : str) (u : URL) :
  URL_parse url = Some u ->
  includes (hostname u) (lit "wikipedia.org") = false ->
  parseWikiUrl decodeURIComponent URL_parse url = None /\
  fetchWikiArticle decodeURIComponent URL_parse wiki_api url = fetch_result (wiki_api url).
Proof.
  intros Hp Hh.
  assert (Hn : parseWikiUrl decodeURIComponent URL_parse url = None).
  { unfold parseWikiUrl, parseWikiUrl_obj. rewrite Hp, Hh. reflexivity. }
  split; [exact Hn|]. unfold fetchWikiArticle, resolve_title. rewrite Hn. reflexivity.
Qed.

(** C4 (amended): on a URL whose hostname contains [wikipedia.org] and whose
    path has no [wiki] segment followed by a non-empty segment, a non-empty
    [title] parameter is returned. *)
Theorem title_param_returned (url : str) (u : URL) (v : str) :
  URL_parse url = Some u ->
  includes (hostname u) (lit "wikipedia.org") = true ->
  (forall pre seg rest, split_on is_slash (pathname u) = pre ++ lit "wiki" :: seg :: rest ->
                        seg = []) ->
  params_get (lit "title") (searchParams u) = Some v -> v <> [] ->
  parseWikiUrl decodeURIComponent URL_parse url = Some v.
Proof.
  intros Hp Hh Hpath Hv Hne. unfold parseWikiUrl, parseWikiUrl_obj. rewrite Hp, Hh.
  cbv zeta.
  set (parts := split_on is_slash (pathname u)) in *.
  set (next := if (indexOf (lit "wiki") parts =? -1)%Z then None
               else js_index parts (indexOf (lit "wiki") parts + 1)).
  assert (Hnext : forall seg, next = Some seg -> seg = []).
  { intros seg E. unfold next, indexOf in E.
    destruct (indexOf_from_spec (lit "wiki") parts 0)
      as [H | [pre [rest [H1 [H2 H3]]]]]; [rewrite H in E; simpl in E; discriminate E|].
    rewrite H2 in E. unfold js_index in E.
    replace (0 + Z.of_nat (length pre) =? -1)%Z with false in E by lia.
    replace (0 + Z.of_nat (length pre) + 1 <? 0)%Z with false in E by lia.
    rewrite H1 in E. replace (Z.to_nat (0 + Z.of_nat (length pre) + 1)) with (length pre + 1) in E by lia.
    rewrite nth_error_app2 in E by lia. replace (length pre + 1 - length pre) with 1 in E by lia.
    destruct rest as [|seg' rest]; [discriminate E|]. simpl in E. injection E as <-.
    apply (Hpath pre seg' rest). exact H1. }
  destruct next as [[|c seg]|] eqn:E.
  - rewrite Hv. destruct v; [contradiction | reflexivity].
  - discriminate (Hnext _ eq_refl).
  - rewrite Hv. destruct v; [contradiction | reflexivity].
Qed.

(** C5 (amended): for a URL that [new URL] parses to the hostname
    [<lang>.wikipedia.org] and the path [/wiki/<title>] as written (the
    parser removes dot segments such as [.], [..] or [%2e]), with a
    non-empty title containing no [/], [parseWikiUrl] returns
    [decodeURIComponent(title)] (null when decoding throws). *)
Theorem article_url_title (url lang title : str) (u : URL) :
  URL_parse url = Some u ->
  hostname u = lang ++ lit ".wikipedia.org" ->
  pathname u = lit "/wiki/" ++ title ->
  title <> [] -> ~ In "/"%char title ->
  parseWikiUrl decodeURIComponent URL_parse url = decodeURIComponent title.
Proof.
  intros Hu Hh Hpath Hne Hsl. unfold parseWikiUrl, parseWikiUrl_obj.
  rewrite Hu, Hh, Hpath.
  rewrite <- (app_nil_r (lit ".wikipedia.org")).
  replace (lang ++ lit ".wikipedia.org" ++ [])
    with ((lang ++ [ "."%char ]) ++ lit "wikipedia.org" ++ []) by (rewrite <- app_assoc; reflexivity).
  rewrite includes_intro. cbv zeta.
  assert (Hs : split_on is_slash title = [title]).
  { apply split_on_whole. intros x Hx. unfold is_slash.
    destruct (Ascii.eqb x "/") eqn:E; [|reflexivity].
    apply Ascii.eqb_eq in E. subst x. contradiction. }
  assert (Hp : split_on is_slash (lit "/wiki/" ++ title) = [[]; lit "wiki"; title]).
  { simpl. rewrite Hs. reflexivity. }
  rewrite Hp. destruct title as [|c t]; [contradiction|]. reflexivity.
Qed.

(** C6: when the first page of the response is [(pageId, page)],
    [fetchWikiArticle] fails with [ArticleNotFoundError] exactly when the
    page is flagged missing or [pageId] is ["-1"], and otherwise returns
    the page's title, extract and canonical URL. *)
Theorem fetch_not_found_iff (titleOrUrl pageId : str) (page : Page) rest :
  wiki_api (resolve_title decodeURIComponent URL_parse titleOrUrl)
    = Pages ((pageId, page) :: rest) ->
  (fetchWikiArticle decodeURIComponent URL_parse wiki_api titleOrUrl = inl ArticleNotFoundError
     <-> page_missing page = true \/ pageId = lit "-1") /\
  (page_missing page = false -> pageId <> lit "-1" ->
   fetchWikiArticle decodeURIComponent URL_parse wiki_api titleOrUrl
   = inr (mkArticle (page_title page) (page_extract page)
            (lit "https://en.wikipedia.org/wiki/" ++ encodeURIComponent (page_title page)))).
Proof.
  intros Ha. unfold fetchWikiArticle. rewrite Ha. cbn [fetch_result].
  destruct (page_missing page) eqn:Hm; destruct (str_eqb pageId (lit "-1")) eqn:E;
    cbn [orb].
  - split; [split; [intros _; left; reflexivity | reflexivity] | discriminate].
  - split; [split; [intros _; left; reflexivity | reflexivity] | discriminate].
  - apply str_eqb_eq in E.
    split; [split; [intros _; right; exact E | reflexivity] | intros _ Hid; contradiction].
  - split; [split; [discriminate|] | reflexivity].
    intros [H | H]; [discriminate H|].
    rewrite H, str_eqb_refl in E. discriminate E.
Qed.

End ResolverClaims.
Lemma non_wikipedia_url_passthrough_witness :
  parseWikiUrl decodeURIComponent_ascii sample_URL_parse other_host_url = None /\
  fetchWikiArticle decodeURIComponent_ascii sample_URL_parse api_missing other_host_url
    = fetch_result (api_missing other_host_url).
Proof.
  apply (non_wikipedia_url_passthrough decodeURIComponent_ascii sample_URL_parse
           api_missing other_host_url
           (mkURL (lit "example.org") (lit "/w/index.php") [(lit "title", lit "Foo")]));
    vm_compute; reflexivity.
Defined.

Lemma title_param_returned_witness :
  parseWikiUrl decodeURIComponent_ascii sample_URL_parse index_php_url = Some (lit "Foo").
Proof.
  apply (title_param_returned decodeURIComponent_ascii sample_URL_parse index_php_url
           (mkURL (lit "en.wikipedia.org") (lit "/w/index.php") [(lit "title", lit "Foo")])).
  - vm_compute. reflexivity.
  - vm_compute. reflexivity.
  - intros pre seg rest H. exfalso. cbn [pathname] in H.
    assert (Hin : In (lit "wiki") (split_on is_slash (lit "/w/index.php")))
      by (rewrite H; apply in_or_app; right; left; reflexivity).
    vm_compute in Hin. intuition discriminate.
  - vm_compute. reflexivity.
  - discriminate.
Defined.

(** C4, as stated, fails: a [title] parameter on another host is ignored. *)
Lemma title_param_counterexample :
  ~ (forall url u v,
       sample_URL_parse url = Some u ->
       params_get (lit "title") (searchParams u) = Some v ->
       parseWikiUrl decodeURIComponent_ascii sample_URL_parse url = Some v).
Proof.
  intros H.
  specialize (H other_host_url
                (mkURL (lit "example.org") (lit "/w/index.php") [(lit "title", lit "Foo")])
                (lit "Foo") eq_refl eq_refl).
  vm_compute in H. discriminate H.
Qed.

Lemma article_url_title_witness :
  parseWikiUrl decodeURIComponent_ascii cpp_URL_parse (lit "https://en.wikipedia.org/wiki/C%2B%2B")
    = decodeURIComponent_ascii (lit "C%2B%2B").
Proof.
  apply (article_url_title decodeURIComponent_ascii cpp_URL_parse
           (lit "https://en.wikipedia.org/wiki/C%2B%2B") (lit "en") (lit "C%2B%2B")
           (article_url (lit "en") (lit "C%2B%2B"))).
  - reflexivity.
  - reflexivity.
  - reflexivity.
  - discriminate.
  - intros H. vm_compute in H. intuition discriminate.
Defined.

(** C5, as stated, fails: the title [AC/DC] is cut at its slash. *)
Lemma article_url_counterexample :
  ~ (forall lang title d,
       decodeURIComponent_ascii title = Some d ->
       parseWikiUrl_obj decodeURIComponent_ascii (article_url lang title) = Some d).
Proof.
  intros H.
  specialize (H (lit "en") (lit "AC/DC") (lit "AC/DC") eq_refl).
  vm_compute in H. discriminate H.
Qed.

Lemma fetch_not_found_iff_witness :
  (fetchWikiArticle decodeURIComponent_ascii sample_URL_parse api_missing (lit "Xyzzy")
     = inl ArticleNotFoundError
   <-> page_missing (mkPage (lit "Xyzzy") [] true) = true \/ lit "-1" = lit "-1") /\
  (page_missing (mkPage (lit "Xyzzy") [] true) = false -> lit "-1" <> lit "-1" ->
   fetchWikiArticle decodeURIComponent_ascii sample_URL_parse api_missing (lit "Xyzzy")
   = inr (mkArticle (lit "Xyzzy") []
            (lit "https://en.wikipedia.org/wiki/" ++ encodeURIComponent (lit "Xyzzy")))).
Proof.
  apply (fetch_not_found_iff decodeURIComponent_ascii sample_URL_parse api_missing
           (lit "Xyzzy") (lit "-1") (mkPage (lit "Xyzzy") [] true) []).
  vm_compute. reflexivity.
Defined.

(** ** Facts about the history *)

Lemma same_entry_true (t v : HistoryItem) :
  same_entry t v = true <-> entry_key t = entry_key v.
Proof.
  unfold same_entry, entry_key. rewrite andb_true_iff, !str_eqb_eq. split.
  - intros [-> ->]. reflexivity.
  - intros H. injection H. auto.
Qed.

Lemma findIndex_from_first {A} (p : A -> bool) (pre l : list A) (i : Z) :
  findIndex_from p (pre ++ l) i = (i + Z.of_nat (length pre))%Z ->
  forall x, In x pre -> p x = false.
Proof.
  revert i; induction pre as [|y pre IH]; intros i H x Hx; [contradiction|].
  simpl in H. destruct (p y) eqn:Hy.
  - exfalso. simpl length in H. lia.
  - destruct Hx as [<- | Hx]; [exact Hy|].
    apply (IH (i + 1)%Z); [|exact Hx]. rewrite H. simpl length. lia.
Qed.

(** The filter of [saveToHistory] keeps the first entry of each key. *)
Lemma dedup_first_entries (a : list HistoryItem) :
  forall l pre, a = pre ++ l ->
  let kept := filter_idx_from
                (fun v i => (findIndex (fun t => same_entry t v) a =? i)%Z)
                l (Z.of_nat (length pre)) in
  NoDup (map entry_key kept) /\
  forall x, In x kept -> ~ In (entry_key x) (map entry_key pre).
Proof.
  induction l as [|v l IH]; intros pre Ha kept; subst kept.
  - split; [constructor | intros x []].
  - assert (Hlen : Z.of_nat (length (pre ++ [v])) = (Z.of_nat (length pre) + 1)%Z)
      by (rewrite length_app; simpl; lia).
    specialize (IH (pre ++ [v])). rewrite Hlen in IH.
    destruct (IH ltac:(rewrite Ha, <- app_assoc; reflexivity)) as [Hnd Hout].
    cbn [filter_idx_from].
    destruct (findIndex (fun t => same_entry t v) a =? Z.of_nat (length pre))%Z eqn:E.
    + apply Z.eqb_eq in E. unfold findIndex in E. rewrite Ha in E.
      pose proof (findIndex_from_first _ pre (v :: l) 0 E) as Hfirst.
      split.
      * simpl. constructor; [|exact Hnd].
        intros Hin. apply in_map_iff in Hin as [x [Hx Hin]].
        apply (Hout x Hin). rewrite map_app. apply in_or_app. right. left.
        symmetry. exact Hx.
      * intros x [<- | Hx] Hin.
        -- apply in_map_iff in Hin as [y [Hy Hin]].
           specialize (Hfirst y Hin). apply same_entry_true in Hy.
           congruence.
        -- apply (Hout x Hx). rewrite map_app. apply in_or_app. left. exact Hin.
    + split; [exact Hnd|].
      intros x Hx Hin. apply (Hout x Hx). rewrite map_app. apply in_or_app. left. exact Hin.
Qed.

(** C8: after [saveToHistory], the persisted list has no two entries with
    the same url and date, whatever the previous history and the new
    record. *)
Theorem save_history_no_duplicates (st : AppState) (item : HistoryItem) :
  NoDup (map entry_key (stored (saveToHistory st item))).
Proof.
  unfold saveToHistory, filter_idx. cbn [stored].
  exact (proj1 (dedup_first_entries (item :: history st) (item :: history st) []
                  eq_refl)).
Qed.

(** ** More facts about the history *)

Lemma existsb_same_entry (pre : list HistoryItem) (v : HistoryItem) :
  existsb (fun t => same_entry t v) pre = true <-> In (entry_key v) (map entry_key pre).
Proof.
  rewrite existsb_exists, in_map_iff. split.
  - intros [t [Ht Hs]]. exists t. apply same_entry_true in Hs. auto.
  - intros [t [Ht Hs]]. exists t. split; [exact Hs|]. apply same_entry_true. exact Ht.
Qed.

Lemma findIndex_from_app {A} (p : A -> bool) (pre l : list A) (v : A) (i : Z) :
  p v = true ->
  (findIndex_from p (pre ++ v :: l) i =? i + Z.of_nat (length pre))%Z
  = negb (existsb p pre).
Proof.
  intros Hv. revert i; induction pre as [|y pre IH]; intros i; simpl.
  - rewrite Hv. apply Z.eqb_eq. lia.
  - destruct (p y); simpl.
    + apply Z.eqb_neq. lia.
    + rewrite <- (IH (i + 1)%Z). f_equal. lia.
Qed.

Lemma filter_first_entries (a : list HistoryItem) :
  forall l pre, a = pre ++ l ->
  filter_idx_from (fun v i => (findIndex (fun t => same_entry t v) a =? i)%Z)
    l (Z.of_nat (length pre)) = first_entries pre l.
Proof.
  induction l as [|v l IH]; intros pre Ha; [reflexivity|].
  cbn [filter_idx_from first_entries].
  assert (E : (findIndex (fun t => same_entry t v) a =? Z.of_nat (length pre))%Z
              = negb (existsb (fun t => same_entry t v) pre)).
  { unfold findIndex. rewrite Ha. rewrite <- (findIndex_from_app _ pre l v 0).
    - f_equal.
    - apply same_entry_true. reflexivity. }
  assert (Hlen : (Z.of_nat (length pre) + 1)%Z = Z.of_nat (length (pre ++ [v])))
    by (rewrite length_app; simpl; lia).
  rewrite E, Hlen, (IH (pre ++ [v])) by (rewrite Ha, <- app_assoc; reflexivity).
  destruct (existsb _ pre); reflexivity.
Qed.

Lemma save_stored (st : AppState) (item : HistoryItem) :
  history (saveToHistory st item) = stored (saveToHistory st item) /\
  stored (saveToHistory st item) = item :: first_entries [item] (history st).
Proof.
  unfold saveToHistory, filter_idx. cbn [stored history]. split; [reflexivity|].
  change 0%Z with (Z.of_nat (length (@nil HistoryItem))).
  rewrite (filter_first_entries _ (item :: history st) []) by reflexivity.
  reflexivity.
Qed.

Lemma first_entries_in (pre l : list HistoryItem) x :
  In x (first_entries pre l) -> In x l /\ ~ In (entry_key x) (map entry_key pre).
Proof.
  revert pre x; induction l as [|v l IH]; intros pre x Hx; [contradiction|].
  cbn [first_entries] in Hx.
  assert (Hsub : forall y, In y (first_entries (pre ++ [v]) l) ->
                 In y (v :: l) /\ ~ In (entry_key y) (map entry_key pre)).
  { intros y Hy. destruct (IH _ _ Hy) as [H1 H2]. split; [right; exact H1|].
    intros H. apply H2. rewrite map_app. apply in_or_app. left. exact H. }
  destruct (existsb (fun t => same_entry t v) pre) eqn:E.
  - exact (Hsub x Hx).
  - destruct Hx as [<- | Hx]; [|exact (Hsub x Hx)].
    split; [left; reflexivity|]. intros H. apply existsb_same_entry in H. congruence.
Qed.

Lemma first_entries_nodup (pre l : list HistoryItem) :
  NoDup (map entry_key (first_entries pre l)).
Proof.
  revert pre; induction l as [|v l IH]; intros pre; [constructor|].
  cbn [first_entries]. destruct (existsb _ pre); [apply IH|].
  simpl. constructor; [|apply IH].
  intros Hin. apply in_map_iff in Hin as [y [Hy Hin]].
  apply first_entries_in in Hin as [_ Hin]. apply Hin.
  rewrite map_app. apply in_or_app. right. left. symmetry. exact Hy.
Qed.

Lemma first_entries_cover (pre l : list HistoryItem) x :
  In x l ->
  In (entry_key x) (map entry_key pre) \/
  exists y, In y (first_entries pre l) /\ entry_key y = entry_key x.
Proof.
  revert pre; induction l as [|v l IH]; intros pre Hx; [contradiction|].
  cbn [first_entries].
  destruct (existsb (fun t => same_entry t v) pre) eqn:E.
  - destruct Hx as [<- | Hx].
    + left. apply existsb_same_entry. exact E.
    + destruct (IH (pre ++ [v]) Hx) as [H | H]; [|right; exact H].
      rewrite map_app in H. apply in_app_or in H as [H | [H | []]]; [left; exact H|].
      left. rewrite <- H. apply existsb_same_entry. exact E.
  - destruct Hx as [<- | Hx].
    + right. exists v. split; [left|]; reflexivity.
    + destruct (IH (pre ++ [v]) Hx) as [H | [y [Hy Hk]]].
      * rewrite map_app in H. apply in_app_or in H as [H | [H | []]]; [left; exact H|].
        right. exists v. split; [left; reflexivity | exact H].
      * right. exists y. split; [right; exact Hy | exact Hk].
Qed.

Lemma first_entries_id (pre l : list HistoryItem) :
  NoDup (map entry_key l) ->
  (forall x, In x l -> ~ In (entry_key x) (map entry_key pre)) ->
  first_entries pre l = l.
Proof.
  revert pre; induction l as [|v l IH]; intros pre Hnd Hout; [reflexivity|].
  cbn [first_entries]. inversion Hnd as [|k ks Hv Hnd']; subst.
  replace (existsb (fun t => same_entry t v) pre) with false.
  - f_equal. apply IH; [exact Hnd'|].
    intros x Hx H. rewrite map_app in H. apply in_app_or in H as [H | [H | []]].
    + exact (Hout x (or_intror Hx) H).
    + apply Hv. rewrite H. apply in_map. exact Hx.
  - symmetry. apply not_true_iff_false. intros H. apply existsb_same_entry in H.
    exact (Hout v (or_introl eq_refl) H).
Qed.

(** X1: [saveToHistory] sets the React history and the stored list to the
    same list; it starts with the new record, and every later entry comes
    from the previous history and differs from the new record in url or
    date. *)
Theorem save_history_new_first (st : AppState) (item : HistoryItem) :
  history (saveToHistory st item) = stored (saveToHistory st item) /\
  exists rest, stored (saveToHistory st item) = item :: rest /\
    forall x, In x rest -> In x (history st) /\ entry_key x <> entry_key item.
Proof.
  destruct (save_stored st item) as [H1 H2]. split; [exact H1|].
  eexists. split; [exact H2|]. intros x Hx.
  apply first_entries_in in Hx as [Hx Hk]. split; [exact Hx|].
  intros E. apply Hk. rewrite E. left. reflexivity.
Qed.

(** X2: saving a record drops no url/date pair: every entry of the previous
    history still has an entry with its url and date in the saved list. *)
Theorem save_history_keeps_keys (st : AppState) (item : HistoryItem) x :
  In x (history st) ->
  exists y, In y (stored (saveToHistory st item)) /\ entry_key y = entry_key x.
Proof.
  intros Hx. rewrite (proj2 (save_stored st item)).
  destruct (first_entries_cover [item] (history st) x Hx) as [[H | []] | [y [Hy Hk]]].
  - exists item. split; [left; reflexivity | exact H].
  - exists y. split; [right; exact Hy | exact Hk].
Qed.

(** X3: when the previous history has no two entries with the same url and
    date and none with the new record's, saving just puts the record in
    front. *)
Theorem save_history_prepend (st : AppState) (item : HistoryItem) :
  NoDup (map entry_key (history st)) ->
  ~ In (entry_key item) (map entry_key (history st)) ->
  stored (saveToHistory st item) = item :: history st.
Proof.
  intros Hnd Hk. rewrite (proj2 (save_stored st item)). f_equal.
  apply first_entries_id; [exact Hnd|].
  intros x Hx [H | []]. apply Hk. rewrite H. apply in_map. exact Hx.
Qed.

(** X4: saving the same record twice in a row stores the same list as saving
    it once. *)
Theorem save_history_idempotent (st : AppState) (item : HistoryItem) :
  stored (saveToHistory (saveToHistory st item) item) = stored (saveToHistory st item).
Proof.
  rewrite (proj2 (save_stored (saveToHistory st item) item)).
  rewrite (proj1 (save_stored st item)), (proj2 (save_stored st item)).
  cbn [first_entries existsb]. rewrite (proj2 (same_entry_true item item) eq_refl).
  cbn [orb app]. f_equal.
  apply first_entries_id; [apply first_entries_nodup|].
  intros x Hx H. apply first_entries_in in Hx as [_ Hx]. apply Hx.
  destruct H as [H | [H | []]]; rewrite <- H; left; reflexivity.
Qed.

(** ** Facts about the quiz session *)

Lemma answer_all_run (now : str) : forall cs pre rest st,
  quiz st = pre ++ rest -> currentIndex st = length pre ->
  selectedOption st = None -> length cs = length rest -> cs <> [] ->
  exists st' item,
    answer_all now cs st = Some st' /\
    showResult st' = true /\ inputUrl st' = [] /\
    selectedOption st' = Some (last cs []) /\
    quizScore st' = quizScore st + count_correct cs rest /\
    appState st' = saveToHistory (appState st) item /\
    h_url item = inputUrl st /\ topic item = articleTitle st /\
    score item = Z.of_nat (quizScore st + count_correct cs rest) /\
    total item = Z.of_nat (length (quiz st)) /\ date item = now /\
    map res_selected (results item) = map res_selected (currentResults st) ++ cs /\
    map res_answer (results item) = map res_answer (currentResults st) ++ map answer rest.
Proof.
  induction cs as [|c cs IH]; intros pre rest st Hq Hi Hs Hlen Hne; [contradiction|].
  destruct rest as [|q rest]; [discriminate|]. simpl in Hlen. injection Hlen as Hlen.
  cbn [answer_all]. unfold handleAnswer. rewrite Hs, Hq, Hi.
  rewrite nth_error_app2, Nat.sub_diag by lia. cbn [nth_error].
  rewrite length_app. cbn [length].
  destruct cs as [|c' cs].
  - destruct rest; [|discriminate].
    match goal with |- context [?a <? ?b] =>
      replace (a <? b) with false by (symmetry; apply Nat.ltb_ge; simpl; lia) end.
    eexists; eexists. cbn -[saveToHistory]. split; [reflexivity|].
    repeat split; try reflexivity;
      cbn [quizScore score total results h_url topic date appState showResult
           inputUrl selectedOption];
      try (rewrite map_app; reflexivity);
      destruct (str_eqb c (answer q)); cbn; lia.
  - destruct rest as [|q' rest]; [discriminate|].
    match goal with |- context [?a <? ?b] =>
      replace (a <? b) with true by (symmetry; apply Nat.ltb_lt; simpl; lia) end.
    set (st1 := mkSession _ _ _ _ _ _ _ _ _ _).
    destruct (IH (pre ++ [q]) (q' :: rest) st1) as [st' [item H]].
    + unfold st1. cbn [quiz]. rewrite <- app_assoc. reflexivity.
    + unfold st1. cbn [currentIndex]. rewrite length_app. simpl. lia.
    + reflexivity.
    + simpl in *. lia.
    + discriminate.
    + destruct H as [H1 [H2 [H3 [H4 [H5 [H6 [H7 [H8 [H9 [H10 [H11 [H12 H13]]]]]]]]]]]].
      exists st', item. unfold st1 in *. cbn [quizScore currentResults appState
        inputUrl articleTitle quiz] in *.
      repeat split; auto;
        try (rewrite H4; reflexivity);
        try (rewrite H12, map_app, <- app_assoc; reflexivity);
        try (rewrite H13, map_app, <- app_assoc; reflexivity);
        try (rewrite H5; cbn [count_correct]; destruct (str_eqb c (answer q)); lia);
        try (rewrite H9; cbn [count_correct]; destruct (str_eqb c (answer q)); lia).
      all: rewrite H10, length_app; reflexivity.
Qed.

Lemma startQuiz_loaded fetch generate (url : str) st st1 :
  url <> [] -> startQuiz fetch generate url st = Some (st1, false) ->
  quiz st1 <> [] /\ currentIndex st1 = 0 /\ quizScore st1 = 0 /\
  selectedOption st1 = None /\ currentResults st1 = [] /\ showResult st1 = false /\
  inputUrl st1 = inputUrl st /\ appState st1 = appState st /\
  exists article, fetch url = inr article /\ articleTitle st1 = art_title article /\
    generate (art_title article) (art_extract article) = Some (quiz st1).
Proof.
  intros Hu. unfold startQuiz. destruct url as [|u0 url]; [contradiction|].
  destruct (fetch (u0 :: url)) as [e | article] eqn:Ef; [discriminate|].
  destruct (generate (art_title article) (art_extract article)) as [[|q qs]|] eqn:Eg;
    try discriminate.
  intros H. injection H as <-. cbn.
  repeat split; try reflexivity; [discriminate|].
  exists article. auto.
Qed.

(** X6: after a successful [startQuiz], one click per question saves a
    history record at the head of the stored list whose score is the number
    of clicks on the right answer (also the displayed score), whose total
    is the number of questions, and whose results list the clicked options
    and the answers in order. *)
Theorem quiz_run_saves_score fetch generate (url now : str) st st1 choices :
  url <> [] -> startQuiz fetch generate url st = Some (st1, false) ->
  length choices = length (quiz st1) ->
  exists st2 item rest,
    answer_all now choices st1 = Some st2 /\
    showResult st2 = true /\
    quizScore st2 = count_correct choices (quiz st1) /\
    stored (appState st2) = item :: rest /\
    h_url item = inputUrl st /\ date item = now /\
    score item = Z.of_nat (count_correct choices (quiz st1)) /\
    total item = Z.of_nat (length choices) /\
    map res_selected (results item) = choices /\
    map res_answer (results item) = map answer (quiz st1).
Proof.
  intros Hu Hs Hl.
  destruct (startQuiz_loaded _ _ _ _ _ Hu Hs)
    as [Hq [Hi [Hsc [Hsel [Hres [_ [Hin _]]]]]]].
  destruct (answer_all_run now choices [] (quiz st1) st1 eq_refl Hi Hsel Hl)
    as [st2 [item H]].
  { intros ->. destruct (quiz st1); [contradiction | discriminate]. }
  destruct H as [H1 [H2 [H3 [H4 [H5 [H6 [H7 [H8 [H9 [H10 [H11 [H12 H13]]]]]]]]]]]].
  pose proof (proj2 (save_stored (appState st1) item)) as Hr.
  exists st2, item, (first_entries [item] (history (appState st1))). rewrite Hsc, Hres in *. rewrite H6, Hr.
  repeat split; auto; congruence.
Qed.

(** X7: once the last answer has shown the result screen, the input url is
    empty, so the retry button ([startQuiz(inputUrl)]) does nothing, and
    further clicks on options change nothing. *)
Theorem finish_then_retry_noop fetch generate (now opt : str) st st' :
  handleAnswer now opt st = Some st' ->
  showResult st = false -> showResult st' = true -> opt <> [] ->
  startQuiz fetch generate (inputUrl st') st' = Some (st', false) /\
  forall now' opt', handleAnswer now' opt' st' = Some st'.
Proof.
  intros H Hs Hs' Ho. unfold handleAnswer in H.
  destruct (selectedOption st) as [[|c0 s0]|] eqn:Esel.
  - destruct (nth_error (quiz st) (currentIndex st)) as [q|]; [|discriminate].
    destruct (_ <? _); injection H as <-; [cbn in Hs'; congruence|].
    split; [reflexivity|]. intros now' opt'. unfold handleAnswer. cbn [selectedOption].
    destruct opt; [contradiction | reflexivity].
  - injection H as <-. congruence.
  - destruct (nth_error (quiz st) (currentIndex st)) as [q|]; [|discriminate].
    destruct (_ <? _); injection H as <-; [cbn in Hs'; congruence|].
    split; [reflexivity|]. intros now' opt'. unfold handleAnswer. cbn [selectedOption].
    destruct opt; [contradiction | reflexivity].
Qed.

(** X5: for a non-empty url, [startQuiz] resets the session (question 0,
    score 0, no selection, no results, result screen hidden) and keeps the
    url and the history; the alert is shown exactly when the quiz is left
    empty, and otherwise the quiz is what the generator made of the fetched
    article. *)
Theorem startQuiz_outcome fetch generate (url : str) st st1 alerted :
  url <> [] -> startQuiz fetch generate url st = Some (st1, alerted) ->
  currentIndex st1 = 0 /\ quizScore st1 = 0 /\ selectedOption st1 = None /\
  currentResults st1 = [] /\ showResult st1 = false /\
  inputUrl st1 = inputUrl st /\ appState st1 = appState st /\
  (alerted = true <-> quiz st1 = []) /\
  (alerted = false -> exists article, fetch url = inr article /\
     generate (art_title article) (art_extract article) = Some (quiz st1)).
Proof.
  intros Hu. unfold startQuiz. destruct url as [|u0 url]; [contradiction|].
  destruct (fetch (u0 :: url)) as [e | article] eqn:Ef.
  - intros H. injection H as <- <-. cbn. repeat split; try reflexivity; discriminate.
  - destruct (generate (art_title article) (art_extract article)) as [[|q qs]|] eqn:Eg;
      [| |discriminate]; intros H; injection H as <- <-; cbn.
    + repeat split; try reflexivity. discriminate.
    + repeat split; try reflexivity; try discriminate.
      intros _. exists article. auto.
Qed.

(** X8: a history entry with an empty url matches every non-empty input,
    so the last-score badge is shown for any url. *)
Theorem empty_url_entry_matches_all (hist : list HistoryItem) (url : str) h :
  url <> [] -> In h hist -> h_url h = [] -> lastScoreForUrl hist url <> None.
Proof.
  intros Hu Hh He. unfold lastScoreForUrl. destruct url as [|c url]; [contradiction|].
  destruct (find (matches_url (c :: url)) hist) eqn:E; [discriminate|].
  exfalso. apply (find_none _ _ E) in Hh.
  unfold matches_url in Hh. rewrite He in Hh. cbn in Hh.
  discriminate Hh.
Qed.

(** ** More facts about the resolver *)

Lemma indexOf_from_app (x : str) (pre rest : list str) (j : Z) :
  ~ In x pre -> indexOf_from x (pre ++ x :: rest) j = (j + Z.of_nat (length pre))%Z.
Proof.
  revert j; induction pre as [|y pre IH]; intros j Hx; simpl.
  - rewrite str_eqb_refl. lia.
  - destruct (str_eqb y x) eqn:E.
    + apply str_eqb_eq in E. subst y. exfalso. apply Hx. left. reflexivity.
    + rewrite IH by (intros H; apply Hx; right; exact H). lia.
Qed.

Section ResolverExtras.

Variable decodeURIComponent : str -> option str.
Variable URL_parse : str -> option URL.
Variable wiki_api : str -> ApiResponse.

Lemma wiki_segment_parse (u : URL) pre seg rest :
  includes (hostname u) (lit "wikipedia.org") = true ->
  split_on is_slash (pathname u) = pre ++ lit "wiki" :: seg :: rest ->
  ~ In (lit "wiki") pre -> seg <> [] ->
  parseWikiUrl_obj decodeURIComponent u = decodeURIComponent seg.
Proof.
  intros Hh Hp Hpre Hseg. unfold parseWikiUrl_obj. rewrite Hh. cbv zeta.
  rewrite Hp. unfold indexOf. rewrite indexOf_from_app by exact Hpre.
  replace (0 + Z.of_nat (length pre) =? -1)%Z with false
    by (symmetry; apply Z.eqb_neq; lia).
  unfold js_index.
  replace (0 + Z.of_nat (length pre) + 1 <? 0)%Z with false
    by (symmetry; apply Z.ltb_ge; lia).
  replace (Z.to_nat (0 + Z.of_nat (length pre) + 1)) with (length pre + 1) by lia.
  rewrite nth_error_app2 by lia. replace (length pre + 1 - length pre) with 1 by lia.
  cbn [nth_error]. destruct seg; [contradiction | reflexivity].
Qed.

(** X10: on a wikipedia.org URL whose first [wiki] path segment is
    followed by a non-empty segment, the result is the decoding of that
    segment, whatever the [title] parameter (null when decoding throws). *)
Theorem wiki_segment_precedence (url : str) (u : URL) pre seg rest :
  URL_parse url = Some u ->
  includes (hostname u) (lit "wikipedia.org") = true ->
  split_on is_slash (pathname u) = pre ++ lit "wiki" :: seg :: rest ->
  ~ In (lit "wiki") pre -> seg <> [] ->
  parseWikiUrl decodeURIComponent URL_parse url = decodeURIComponent seg.
Proof.
  intros Hu Hh Hp Hpre Hseg. unfold parseWikiUrl. rewrite Hu.
  exact (wiki_segment_parse u pre seg rest Hh Hp Hpre Hseg).
Qed.

End ResolverExtras.

Lemma encodeURIComponent_cons (c : ascii) (s : str) :
  encodeURIComponent (c :: s)
  = (if uri_unreserved c then [c]
     else ["%"%char; hex_digit (nat_of_ascii c / 16); hex_digit (nat_of_ascii c mod 16)])
    ++ encodeURIComponent s.
Proof. reflexivity. Qed.

Lemma decode_encoded_char (c : ascii) (s : str) :
  nat_of_ascii c < 128 ->
  decodeURIComponent_ascii
    ((if uri_unreserved c then [c]
      else ["%"%char; hex_digit (nat_of_ascii c / 16); hex_digit (nat_of_ascii c mod 16)])
     ++ s)
  = option_map (cons c) (decodeURIComponent_ascii s).
Proof.
  intros Hc. destruct c as [[] [] [] [] [] [] [] []];
    solve [reflexivity | vm_compute in Hc; lia].
Qed.

Lemma decode_encode_ascii (s : str) :
  Forall (fun c => nat_of_ascii c < 128) s ->
  decodeURIComponent_ascii (encodeURIComponent s) = Some s.
Proof.
  induction 1 as [|c s Hc Hs IH]; [reflexivity|].
  rewrite encodeURIComponent_cons, decode_encoded_char by exact Hc.
  rewrite IH. reflexivity.
Qed.

Lemma encoded_char_no_slash (c : ascii) :
  ~ In "/"%char
    (if uri_unreserved c then [c]
     else ["%"%char; hex_digit (nat_of_ascii c / 16); hex_digit (nat_of_ascii c mod 16)]).
Proof.
  destruct c as [[] [] [] [] [] [] [] []]; vm_compute; intuition discriminate.
Qed.

Lemma encode_no_slash (s : str) : ~ In "/"%char (encodeURIComponent s).
Proof.
  induction s as [|c s IH]; [intros []|].
  rewrite encodeURIComponent_cons. intros H. apply in_app_or in H as [H | H];
    [exact (encoded_char_no_slash c H) | exact (IH H)].
Qed.

(** X11: the URL returned by [fetchWikiArticle] is the wiki path of the
    encoded title, and [parseWikiUrl] of it gives the title back, for an
    ASCII title other than [.] and [..] (which the URL parser would
    rewrite). *)
Theorem canonical_url_round_trip (r : ApiResponse) (a : Article) :
  fetch_result r = inr a -> art_title a <> [] ->
  Forall (fun c => nat_of_ascii c < 128) (art_title a) ->
  art_title a <> lit "." -> art_title a <> lit ".." ->
  art_url a = lit "https://en.wikipedia.org/wiki/" ++ encodeURIComponent (art_title a) /\
  parseWikiUrl_obj decodeURIComponent_ascii
    (article_url (lit "en") (encodeURIComponent (art_title a))) = Some (art_title a).
Proof.
  intros Hr Hne Hascii _ _. split.
  - destruct r as [| |[|[pageId page] rest]]; try discriminate.
    cbn [fetch_result] in Hr. destruct (_ || _); [discriminate|].
    injection Hr as <-. reflexivity.
  - rewrite <- (decode_encode_ascii _ Hascii).
    apply (wiki_segment_parse decodeURIComponent_ascii _ [[]] _ []).
    + reflexivity.
    + cbn [pathname article_url].
      assert (Hs : split_on is_slash (encodeURIComponent (art_title a))
                   = [encodeURIComponent (art_title a)]).
      { apply split_on_whole. intros x Hx. unfold is_slash.
        destruct (Ascii.eqb x "/") eqn:E; [|reflexivity].
        apply Ascii.eqb_eq in E. subst x. exfalso. exact (encode_no_slash _ Hx). }
      set (e := encodeURIComponent (art_title a)) in *.
      simpl. rewrite Hs. reflexivity.
    + intros [H | []]. discriminate H.
    + destruct (art_title a) as [|c t]; [contradiction|].
      rewrite encodeURIComponent_cons. destruct (uri_unreserved c); discriminate.
Qed.

(** ** More facts about the generator *)

Lemma includes_app_r (s r pat : str) : includes s pat = true -> includes (s ++ r) pat = true.
Proof.
  induction s as [|c s IH]; intros H.
  - cbn in H. rewrite orb_false_r in H. destruct pat; [|discriminate].
    destruct r; reflexivity.
  - cbn [includes app] in H |- *. apply orb_true_iff in H as [H | H].
    + apply is_prefix_spec in H as [t Ht].
      rewrite (proj2 (is_prefix_spec pat (c :: s ++ r))); [reflexivity|].
      exists (t ++ r). rewrite app_comm_cons, Ht, app_assoc. reflexivity.
    + rewrite IH by exact H. apply orb_true_r.
Qed.

Lemma split_ws_no_ws (s w : str) :
  In w (split_ws s) -> forall x, In x w -> is_ws x = false.
Proof.
  revert w; induction s as [|c s IH]; intros w Hw x Hx; cbn [split_ws] in Hw.
  - destruct Hw as [<- | []]; contradiction.
  - destruct (is_ws c) eqn:Hc.
    + destruct s as [|d s'].
      * destruct Hw as [<- | Hw]; [contradiction | exact (IH w Hw x Hx)].
      * destruct (is_ws d); [exact (IH w Hw x Hx)|].
        destruct Hw as [<- | Hw]; [contradiction | exact (IH w Hw x Hx)].
    + destruct (split_ws s) as [|v vs] eqn:E.
      * destruct Hw as [<- | []]. destruct Hx as [<- | []]; exact Hc.
      * destruct Hw as [<- | Hw].
        -- destruct Hx as [<- | Hx]; [exact Hc|].
           apply (IH v); [left; reflexivity | exact Hx].
        -- apply (IH w); [right; exact Hw | exact Hx].
Qed.

Lemma filter_all_false {A} (f : A -> bool) (l : list A) :
  (forall x, In x l -> f x = false) -> filter f l = [].
Proof.
  induction l as [|x l IH]; intros H; [reflexivity|]. simpl.
  rewrite (H x (or_introl eq_refl)). apply IH. intros y Hy. apply H. right. exact Hy.
Qed.

Section GeneratorExtras.

Variable rnd : nat -> nat.
Variable shuffle : nat -> list str -> list str.
Variable fuel : nat.

Lemma fill_options_from (n k : nat) (aw opts : list str) k' opts' :
  fill_options rnd n k aw opts = Some (k', opts') ->
  exists ext, opts' = opts ++ ext /\
    forall o, In o ext -> exists w, In w aw /\ o = strip_punct w.
Proof.
  revert k opts; induction n as [|n IH]; intros k opts Hf; cbn [fill_options] in Hf;
    [discriminate|].
  destruct ((length opts <? 4) && (0 <? length aw)) eqn:Hc.
  - apply andb_true_iff in Hc as [_ Haw]. apply Nat.ltb_lt in Haw.
    set (fake := strip_punct (nth (rnd k mod length aw) aw [])) in Hf.
    destruct (existsb (fun o => lower_eqb o fake) opts).
    + exact (IH _ _ Hf).
    + destruct (IH _ _ Hf) as [ext [Hext Hin]].
      exists (fake :: ext). split; [rewrite Hext, <- app_assoc; reflexivity|].
      intros o [<- | Ho]; [|exact (Hin o Ho)].
      exists (nth (rnd k mod length aw) aw []). split; [|reflexivity].
      apply nth_In, Nat.mod_upper_bound. lia.
  - injection Hf as <- <-. exists []. split; [rewrite app_nil_r; reflexivity | intros o []].
Qed.

Lemma fill_options_nil (n k : nat) (opts : list str) k' opts' :
  fill_options rnd n k [] opts = Some (k', opts') -> opts' = opts.
Proof.
  destruct n; cbn [fill_options]; [discriminate|].
  rewrite andb_false_r. intros H. injection H as _ <-. reflexivity.
Qed.

Lemma gen_loop_length (title extract : str) pool k quiz qs :
  gen_loop rnd shuffle fuel title extract pool k quiz = Some qs -> length quiz <= 5 ->
  length qs <= 5 /\ length qs <= length quiz + length pool.
Proof.
  revert k quiz; induction pool as [|s pool IH]; intros k quiz Hg Hl; cbn [gen_loop] in Hg.
  - injection Hg as <-. simpl. lia.
  - destruct (5 <=? length quiz) eqn:E5; [injection Hg as <-; simpl; lia|].
    apply Nat.leb_gt in E5.
    destruct (make_question rnd shuffle fuel title extract s k) as [| |km qm];
      [| discriminate |].
    + destruct (IH _ _ Hg Hl). simpl. lia.
    + destruct (IH _ _ Hg) as [H1 H2]; [rewrite length_app; simpl; lia|].
      rewrite length_app in H2. simpl in *. lia.
Qed.

Hypothesis shuffle_perm : forall k l, Permutation (shuffle k l) l.

(** X12: [generateQuizFromExtract] returns at most 5 questions, and no more
    than there are sentences in its pool. *)
Theorem quiz_at_most_five (title extract : str) qs :
  generateQuizFromExtract rnd shuffle fuel title extract = Some qs ->
  length qs <= 5 /\ length qs <= length (sentence_pool extract).
Proof.
  unfold generateQuizFromExtract. intros Hg.
  destruct (gen_loop_length _ _ _ _ _ _ Hg ltac:(simpl; lia)) as [H1 H2].
  rewrite (Permutation_length (shuffle_perm 0 _)) in H2. simpl in H2. lia.
Qed.

(** X13: an extract with no line longer than 100 characters after trimming
    yields no question. *)
Theorem quiz_empty_short_paragraphs (title extract : str) :
  (forall p, In p (split_on is_newline extract) -> length (trim p) <= 100) ->
  generateQuizFromExtract rnd shuffle fuel title extract = Some [].
Proof.
  intros Hp. unfold generateQuizFromExtract.
  assert (Hpool : sentence_pool extract = []).
  { unfold sentence_pool.
    replace (filter (fun p => 100 <? length (trim p)) (split_on is_newline extract))
      with (@nil str); [reflexivity|].
    symmetry. apply filter_all_false.
    intros p Hin. specialize (Hp p Hin). apply Nat.ltb_ge. exact Hp. }
  rewrite Hpool.
  rewrite (Permutation_nil (Permutation_sym (shuffle_perm 0 []))). reflexivity.
Qed.

(** X14: every question comes from a sentence of a line of the extract that
    is longer than 100 characters after trimming; the sentence has no
    [.], [!] or [?] and 51 to 199 characters after trimming, and the
    question is that trimmed sentence with the answer blanked. *)
Theorem quiz_sentence_source (title extract : str) qs q :
  generateQuizFromExtract rnd shuffle fuel title extract = Some qs -> In q qs ->
  exists p s,
    In p (split_on is_newline extract) /\ 100 < length (trim p) /\
    In s (split_on is_sentence_end p) /\
    50 < length (trim s) < 200 /\
    (forall c, In c s -> is_sentence_end c = false) /\
    question q = replace_first (answer q) blank (trim s).
Proof.
  intros Hg Hq. destruct (generate_made _ _ _ _ _ _ _ Hg Hq) as [s [k0 [k1 [Hs Hm]]]].
  destruct (make_question_inv _ _ _ _ _ _ _ _ _ Hm) as [w [k'' [opts [_ [_ [Hqq _]]]]]].
  apply (Permutation_in _ (shuffle_perm 0 _)) in Hs.
  unfold sentence_pool in Hs. apply filter_In in Hs as [Hs Hlen].
  apply andb_true_iff in Hlen as [H1 H2]. apply Nat.ltb_lt in H1, H2.
  apply in_flat_map in Hs as [p [Hp Hsp]]. apply filter_In in Hp as [Hp Hpl].
  apply Nat.ltb_lt in Hpl.
  exists p, s. repeat split; auto.
  exact (split_on_no_sep _ _ _ Hsp).
Qed.

End GeneratorExtras.

(** X15: every question is made by [make_question] from a sentence of
    the shuffled pool; when that sentence has a preferred word, the answer
    starts with a capital A-Z and, lowercased, does not contain the first
    word of the lowercased title; otherwise the answer has at least 6
    characters. *)
Theorem quiz_answer_preferred (rnd : nat -> nat) (shuffle : nat -> list str -> list str)
    (fuel : nat) (title extract : str) qs q :
  generateQuizFromExtract rnd shuffle fuel title extract = Some qs -> In q qs ->
  exists s k0 k1, In s (shuffle 0 (sentence_pool extract)) /\
    make_question rnd shuffle fuel title extract s k0 = Made k1 q /\
    (preferred_words title (trim s) <> [] ->
     starts_upper (answer q) = true /\
     includes (toLowerCase (answer q)) (title_word title) = false) /\
    (preferred_words title (trim s) = [] -> 6 <= length (answer q)).
Proof.
  intros Hg Hq. destruct (generate_made _ _ _ _ _ _ _ Hg Hq) as [s [k0 [k1 [Hs Hm]]]].
  destruct (make_question_inv _ _ _ _ _ _ _ _ _ Hm) as [w [k'' [opts [Hw [Ha _]]]]].
  exists s, k0, k1. split; [exact Hs|]. split; [exact Hm|].
  unfold target_words in Hw.
  destruct (strip_punct_prefix w) as [r Hr]. rewrite <- Ha in Hr.
  pose proof (strip_punct_length w) as Hsl. rewrite <- Ha in Hsl.
  split.
  - intros Hne. destruct (preferred_words title (trim s)) as [|w0 ws] eqn:E;
      [contradiction|].
    cbn [length Nat.ltb Nat.leb] in Hw. rewrite <- E in Hw.
    unfold preferred_words in Hw. apply filter_In in Hw as [_ Hp].
    apply andb_true_iff in Hp as [Hp Hup]. apply andb_true_iff in Hp as [Hl Hinc].
    apply Nat.ltb_lt in Hl.
    split.
    + destruct (answer q) as [|c a]; [simpl in Hsl; lia|].
      rewrite Hr in Hup. exact Hup.
    + apply negb_true_iff in Hinc. apply not_true_iff_false. intros H.
      apply (includes_app_r _ (toLowerCase r)) in H.
      unfold toLowerCase in H. rewrite <- map_app, <- Hr in H.
      unfold toLowerCase in Hinc. congruence.
  - intros He. rewrite He in Hw. cbn in Hw.
    unfold fallback_words in Hw. apply filter_In in Hw as [_ Hl].
    apply Nat.ltb_lt in Hl. lia.
Qed.

Lemma placeholder_space (o : str) :
  In o [lit "Option 1"; lit "Option 2"; lit "Option 3"] -> In " "%char o.
Proof.
  intros [<- | [<- | [<- | []]]]; cbn; do 6 right; left; reflexivity.
Qed.

(** X16: every option is the answer, a placeholder [Option 1..3], or a
    word of the extract longer than 5 characters that differs from the
    answer up to case, with one trailing [,], [.] or [;] removed;
    placeholders appear only when there is no such word, and the options
    are then the answer and the three placeholders. *)
Theorem quiz_options_sources (rnd : nat -> nat) (shuffle : nat -> list str -> list str)
    (fuel : nat) (title extract : str) qs q :
  (forall k l, Permutation (shuffle k l) l) ->
  generateQuizFromExtract rnd shuffle fuel title extract = Some qs -> In q qs ->
  (forall o, In o (options q) ->
     o = answer q \/ In o [lit "Option 1"; lit "Option 2"; lit "Option 3"] \/
     exists w, In w (all_words extract (answer q)) /\ o = strip_punct w) /\
  ((exists o, In o (options q) /\ In o [lit "Option 1"; lit "Option 2"; lit "Option 3"]) ->
   all_words extract (answer q) = [] /\
   Permutation (options q) [answer q; lit "Option 1"; lit "Option 2"; lit "Option 3"]).
Proof.
  intros Hperm Hg Hq. destruct (generate_made _ _ _ _ _ _ _ Hg Hq) as [s [k0 [k1 [_ Hm]]]].
  pose proof (answer_no_space _ _ _ _ _ _ _ _ _ Hm) as Hsp.
  destruct (make_question_inv _ _ _ _ _ _ _ _ _ Hm)
    as [w [k'' [opts [_ [_ [_ [Hf Ho]]]]]]].
  pose proof (Hperm k'' (pad_options opts)) as HP. rewrite <- Ho in HP.
  destruct (all_words extract (answer q)) as [|w0 ws] eqn:Eaw.
  - apply fill_options_nil in Hf. subst opts.
    change (pad_options [answer q])
      with [answer q; lit "Option 1"; lit "Option 2"; lit "Option 3"] in HP.
    split.
    + intros o Ho'. apply (Permutation_in _ HP) in Ho'.
      destruct Ho' as [<- | Ho']; [left; reflexivity | right; left; exact Ho'].
    + intros _. split; [reflexivity | exact HP].
  - destruct (fill_options_inv _ _ _ _ _ _ _ Hf) as [_ [_ Hcase]];
      [repeat constructor; intros [] | simpl; lia |].
    destruct Hcase as [H4 | [H _]]; [|discriminate H].
    rewrite pad_options_full in HP by exact H4.
    destruct (fill_options_from _ _ _ _ _ _ _ Hf) as [ext [Hext Hin]].
    rewrite Hext in HP. cbn [app] in HP.
    assert (Hsrc : forall o, In o (options q) ->
              o = answer q \/ exists w, In w (w0 :: ws) /\ o = strip_punct w).
    { intros o Ho'. apply (Permutation_in _ HP) in Ho'.
      destruct Ho' as [<- | Ho']; [left; reflexivity | right; exact (Hin o Ho')]. }
    split.
    + intros o Ho'. destruct (Hsrc o Ho') as [H | H]; [left; exact H | right; right; exact H].
    + intros [o [Ho' Hph]]. exfalso. apply placeholder_space in Hph.
      destruct (Hsrc o Ho') as [-> | [w' [Hw' ->]]]; [exact (Hsp Hph)|].
      rewrite <- Eaw in Hw'. unfold all_words in Hw'. apply filter_In in Hw' as [Hw' _].
      destruct (strip_punct_prefix w') as [r Hr].
      assert (is_ws " "%char = false) as Hws.
      { apply (split_ws_no_ws _ _ Hw'). rewrite Hr. apply in_or_app. left. exact Hph. }
      discriminate Hws.
Qed.

(** ** Witnesses of the further properties *)

Lemma save_history_keeps_keys_witness :
  exists y, In y (stored (saveToHistory (mkAppState [older_item] [older_item]) newer_item))
            /\ entry_key y = entry_key older_item.
Proof.
  apply (save_history_keeps_keys (mkAppState [older_item] [older_item]) newer_item older_item).
  left. reflexivity.
Defined.

Lemma save_history_prepend_witness :
  stored (saveToHistory (mkAppState [older_item] [older_item]) newer_item)
  = [newer_item; older_item].
Proof.
  apply (save_history_prepend (mkAppState [older_item] [older_item]) newer_item).
  - vm_compute. constructor; [intros [] | constructor].
  - vm_compute. intros [H | []]. discriminate H.
Defined.

Lemma quiz_run_saves_score_witness :
  exists st2 item rest,
    answer_all (lit "16/10/2026, 10:00:00") [answer double_punct_question] started_session
      = Some st2 /\
    showResult st2 = true /\
    quizScore st2 = count_correct [answer double_punct_question] (quiz started_session) /\
    stored (appState st2) = item :: rest /\
    h_url item = inputUrl fresh_session /\ date item = lit "16/10/2026, 10:00:00" /\
    score item = Z.of_nat (count_correct [answer double_punct_question] (quiz started_session)) /\
    total item = Z.of_nat (length [answer double_punct_question]) /\
    map res_selected (results item) = [answer double_punct_question] /\
    map res_answer (results item) = map answer (quiz started_session).
Proof.
  apply (quiz_run_saves_score sample_fetch sample_generate quiz_url
           (lit "16/10/2026, 10:00:00") fresh_session started_session).
  - discriminate.
  - vm_compute. reflexivity.
  - reflexivity.
Defined.

Lemma finish_then_retry_noop_witness :
  startQuiz sample_fetch sample_generate (inputUrl finished_session) finished_session
    = Some (finished_session, false) /\
  forall now' opt', handleAnswer now' opt' finished_session = Some finished_session.
Proof.
  apply (finish_then_retry_noop sample_fetch sample_generate (lit "16/10/2026, 10:00:00")
           (answer double_punct_question) started_session finished_session).
  - vm_compute. reflexivity.
  - reflexivity.
  - reflexivity.
  - vm_compute. discriminate.
Defined.

Lemma startQuiz_outcome_witness :
  currentIndex started_session = 0 /\ quizScore started_session = 0 /\
  selectedOption started_session = None /\ currentResults started_session = [] /\
  showResult started_session = false /\
  inputUrl started_session = inputUrl fresh_session /\
  appState started_session = appState fresh_session /\
  (false = true <-> quiz started_session = []) /\
  (false = false -> exists article, sample_fetch quiz_url = inr article /\
     sample_generate (art_title article) (art_extract article) = Some (quiz started_session)).
Proof.
  apply (startQuiz_outcome sample_fetch sample_generate quiz_url fresh_session).
  - discriminate.
  - vm_compute. reflexivity.
Defined.

Lemma empty_url_entry_matches_all_witness :
  lastScoreForUrl [older_item; empty_url_item] (lit "https://en.wikipedia.org/wiki/Berlin")
  <> None.
Proof.
  apply (empty_url_entry_matches_all _ _ empty_url_item).
  - discriminate.
  - right. left. reflexivity.
  - reflexivity.
Defined.

Lemma wiki_segment_precedence_witness :
  parseWikiUrl decodeURIComponent_ascii wiki_and_title_parse quiz_url
  = decodeURIComponent_ascii (lit "Berlin").
Proof.
  apply (wiki_segment_precedence decodeURIComponent_ascii wiki_and_title_parse quiz_url
           wiki_and_title_URL [[]] (lit "Berlin") []).
  - reflexivity.
  - vm_compute. reflexivity.
  - vm_compute. reflexivity.
  - intros [H | []]. discriminate H.
  - discriminate.
Defined.

Lemma canonical_url_round_trip_witness :
  art_url (mkArticle (lit "AC/DC") [] (lit "https://en.wikipedia.org/wiki/AC%2FDC"))
    = lit "https://en.wikipedia.org/wiki/" ++ encodeURIComponent (lit "AC/DC") /\
  parseWikiUrl_obj decodeURIComponent_ascii
    (article_url (lit "en") (encodeURIComponent (lit "AC/DC"))) = Some (lit "AC/DC").
Proof.
  apply (canonical_url_round_trip acdc_api
           (mkArticle (lit "AC/DC") [] (lit "https://en.wikipedia.org/wiki/AC%2FDC"))).
  - vm_compute. reflexivity.
  - discriminate.
  - apply Forall_forall. intros c Hc. apply Nat.ltb_lt. revert c Hc.
    apply forallb_forall. vm_compute. reflexivity.
  - discriminate.
  - discriminate.
Defined.

Lemma quiz_at_most_five_witness :
  length [double_punct_question] <= 5 /\
  length [double_punct_question] <= length (sentence_pool double_punct_extract).
Proof.
  apply (quiz_at_most_five rnd_count keep_order 100 (fun k l => Permutation_refl l)
           quiz_title double_punct_extract).
  vm_compute. reflexivity.
Defined.

Lemma quiz_empty_short_paragraphs_witness :
  generateQuizFromExtract rnd_count keep_order 100 quiz_title short_extract = Some [].
Proof.
  apply (quiz_empty_short_paragraphs rnd_count keep_order 100 (fun k l => Permutation_refl l)).
  intros p Hp. vm_compute in Hp. destruct Hp as [<- | []]. vm_compute. lia.
Defined.

Lemma quiz_sentence_source_witness :
  exists p s,
    In p (split_on is_newline double_punct_extract) /\ 100 < length (trim p) /\
    In s (split_on is_sentence_end p) /\
    50 < length (trim s) < 200 /\
    (forall c, In c s -> is_sentence_end c = false) /\
    question double_punct_question = replace_first (answer double_punct_question) blank (trim s).
Proof.
  apply (quiz_sentence_source rnd_count keep_order 100 (fun k l => Permutation_refl l)
           quiz_title double_punct_extract [double_punct_question]).
  - vm_compute. reflexivity.
  - left. reflexivity.
Defined.

Lemma quiz_answer_preferred_witness :
  exists s k0 k1, In s (keep_order 0 (sentence_pool double_punct_extract)) /\
    make_question rnd_count keep_order 100 quiz_title double_punct_extract s k0
      = Made k1 double_punct_question /\
    (preferred_words quiz_title (trim s) <> [] ->
     starts_upper (answer double_punct_question) = true /\
     includes (toLowerCase (answer double_punct_question)) (title_word quiz_title) = false) /\
    (preferred_words quiz_title (trim s) = [] -> 6 <= length (answer double_punct_question)).
Proof.
  apply (quiz_answer_preferred rnd_count keep_order 100 quiz_title double_punct_extract
           [double_punct_question]).
  - vm_compute. reflexivity.
  - left. reflexivity.
Defined.

Lemma quiz_options_sources_witness :
  (forall o, In o (options double_punct_question) ->
     o = answer double_punct_question \/
     In o [lit "Option 1"; lit "Option 2"; lit "Option 3"] \/
     exists w, In w (all_words double_punct_extract (answer double_punct_question)) /\
               o = strip_punct w) /\
  ((exists o, In o (options double_punct_question) /\
              In o [lit "Option 1"; lit "Option 2"; lit "Option 3"]) ->
   all_words double_punct_extract (answer double_punct_question) = [] /\
   Permutation (options double_punct_question)
     [answer double_punct_question; lit "Option 1"; lit "Option 2"; lit "Option 3"]).
Proof.
  apply (quiz_options_sources rnd_count keep_order 100 quiz_title double_punct_extract
           [double_punct_question]).
  - intros k l. apply Permutation_refl.
  - vm_compute. reflexivity.
  - left. reflexivity.
Defined.
